(** * A MESI cache-coherence simulator: model and verification

    Shallow embedding of [cache_simulator.py] (class [CacheSimulator]) and
    proofs of the properties its specification states about the coherence
    engine.

    Conventions of the embedding.
    - Thread ids are Python integers ([Z]); addresses and the strings
      ['read'] / ['write'] / ['MESI'] / ['none'] are [string]s; cached values
      are Python integers ([Z]).
    - [self.caches] is an insertion-ordered dictionary whose keys are iterated
      by the fan-out loops, so it is an association list ([pydict]); the inner
      caches, [self.shared_memory] and [self.coherence_states] are only looked
      up and stored into, so they are [gmap]s.
    - [self.coherence_states[tid]] is a [defaultdict(lambda: 'I')]: reading a
      missing key inserts it with ['I']; a membership test does not.
    - A Python exception is an [outcome] beside the state reached when it was
      raised: the mutations done before the exception stay.
    - [random.randint(1, 100)] is an input of the call: the argument [rnd] is
      the number the generator hands out if the call asks for one.
    - [self.lock] makes [access_memory] atomic; one call is one transition.
      [init_thread_cache] does not take the lock: a list of calls stands for
      an execution in which every call, a registration included, completes
      before the next one begins. A registration that lands inside another
      core's access (the driver's threads allow it) is outside the model. *)

From stdpp Require Import gmap strings list fin_maps.

Local Open Scope Z_scope.
Local Open Scope string_scope.

(** ** Data model *)

(** The coherence states, stored by the program as ['M'], ['E'], ['S'], ['I']. *)
Inductive mesi : Type := Modified | Exclusive | Shared | Invalid.

#[global] Instance mesi_eq_dec : EqDecision mesi.
Proof. solve_decision. Defined.

(** [self.metrics], a dictionary with three fixed keys. *)
Record Metrics : Type := mkMetrics {
  cache_misses : Z;
  coherence_messages : Z;
  memory_accesses : Z
}.

(** An insertion-ordered dictionary keyed by thread id. *)
Definition pydict (V : Type) : Type := list (Z * V).

Fixpoint dict_get {V} (d : pydict V) (k : Z) : option V :=
  match d with
  | [] => None
  | (k', v) :: r => if decide (k' = k) then Some v else dict_get r k
  end.

(** [d[k] = v]: an existing key keeps its place, a new one goes last. *)
Fixpoint dict_set {V} (d : pydict V) (k : Z) (v : V) : pydict V :=
  match d with
  | [] => [(k, v)]
  | (k', v') :: r =>
      if decide (k' = k) then (k, v) :: r else (k', v') :: dict_set r k v
  end.

Definition dict_keys {V} (d : pydict V) : list Z := d.*1.

Record CacheSimulator : Type := mkSim {
  protocol : string;
  caches : pydict (gmap string Z);
  shared_memory : gmap string Z;
  metrics : Metrics;
  coherence_states : gmap Z (gmap string mesi)
}.

Definition with_caches (self : CacheSimulator) (c : pydict (gmap string Z)) :=
  mkSim (protocol self) c (shared_memory self) (metrics self)
        (coherence_states self).
Definition with_shared_memory (self : CacheSimulator) (m : gmap string Z) :=
  mkSim (protocol self) (caches self) m (metrics self) (coherence_states self).
Definition with_metrics (self : CacheSimulator) (m : Metrics) :=
  mkSim (protocol self) (caches self) (shared_memory self) m
        (coherence_states self).
Definition with_coherence_states (self : CacheSimulator)
    (cs : gmap Z (gmap string mesi)) :=
  mkSim (protocol self) (caches self) (shared_memory self) (metrics self) cs.

(** ** Exceptions and the state monad of a method call *)

Inductive exn : Type := KeyError.

Inductive outcome (A : Type) : Type :=
  | Ret (a : A)
  | Raise (e : exn).
Arguments Ret {A} a.
Arguments Raise {A} e.

Definition Py (A : Type) : Type := CacheSimulator → outcome A * CacheSimulator.

Definition ret {A} (a : A) : Py A := λ self, (Ret a, self).

(** Sequencing: an exception ends the call and keeps the state it left. *)
Definition bind {A B} (m : Py A) (f : A → Py B) : Py B := λ self,
  match m self with
  | (Ret a, self') => f a self'
  | (Raise e, self') => (Raise e, self')
  end.

Declare Scope py_scope.
Delimit Scope py_scope with py.
Bind Scope py_scope with Py.
Notation "x ← y ; z" := (bind y (λ x, z))
  (at level 20, y at level 100, z at level 200, only parsing) : py_scope.
Notation "x ;; z" := (bind x (λ _, z))
  (at level 100, z at level 200, only parsing, right associativity) : py_scope.
Local Open Scope py_scope.

(** [self.protocol]. *)
Definition get_protocol : Py string := λ self, (Ret (protocol self), self).

Fixpoint for_each {A} (l : list A) (body : A → Py unit) : Py unit :=
  match l with
  | [] => ret tt
  | x :: r => body x;; for_each r body
  end.

(** ** The statements of the methods *)

(** The keys a loop [for tid in self.caches] runs over. *)
Definition caches_keys : Py (list Z) := λ self,
  (Ret (dict_keys (caches self)), self).

(** [self.caches[tid]], only for its exception. *)
Definition caches_getitem (tid : Z) : Py (gmap string Z) := λ self,
  match dict_get (caches self) tid with
  | Some c => (Ret c, self)
  | None => (Raise KeyError, self)
  end.

(** [address in cache], where [cache] is the object [self.caches[tid]] that
    line 34 or 49 has fetched (so the lookup here cannot fail). *)
Definition cache_contains (tid : Z) (address : string) : Py bool := λ self,
  match dict_get (caches self) tid with
  | Some c => (Ret (bool_decide (is_Some (c !! address))), self)
  | None => (Raise KeyError, self)
  end.

(** [cache[address]]. *)
Definition cache_getitem (tid : Z) (address : string) : Py Z := λ self,
  match dict_get (caches self) tid ≫= (.!! address) with
  | Some v => (Ret v, self)
  | None => (Raise KeyError, self)
  end.

(** [cache[address] = v]: [cache] aliases [self.caches[tid]], the store is
    seen through [self.caches]. *)
Definition cache_setitem (tid : Z) (address : string) (v : Z) : Py unit :=
  λ self,
  match dict_get (caches self) tid with
  | Some c =>
      (Ret tt, with_caches self (dict_set (caches self) tid (<[address:=v]> c)))
  | None => (Raise KeyError, self)
  end.

(** [self.shared_memory[address]]. *)
Definition shared_getitem (address : string) : Py Z := λ self,
  match shared_memory self !! address with
  | Some v => (Ret v, self)
  | None => (Raise KeyError, self)
  end.

(** [self.shared_memory[address] = v]. *)
Definition shared_setitem (address : string) (v : Z) : Py unit := λ self,
  (Ret tt, with_shared_memory self (<[address:=v]> (shared_memory self))).

(** [if address not in self.shared_memory: self.shared_memory[address] = 0]. *)
Definition shared_setdefault0 (address : string) : Py unit := λ self,
  match shared_memory self !! address with
  | Some _ => (Ret tt, self)
  | None => shared_setitem address 0 self
  end.

(** [self.coherence_states[tid][address]]: a [defaultdict] read, which stores
    ['I'] under a missing key. *)
Definition state_getitem (tid : Z) (address : string) : Py mesi := λ self,
  match coherence_states self !! tid with
  | Some d =>
      match d !! address with
      | Some st => (Ret st, self)
      | None =>
          (Ret Invalid,
           with_coherence_states self
             (<[tid := <[address:=Invalid]> d]> (coherence_states self)))
      end
  | None => (Raise KeyError, self)
  end.

(** [address in self.coherence_states[tid]]. *)
Definition state_contains (tid : Z) (address : string) : Py bool := λ self,
  match coherence_states self !! tid with
  | Some d => (Ret (bool_decide (is_Some (d !! address))), self)
  | None => (Raise KeyError, self)
  end.

(** [self.coherence_states[tid][address] = st]. *)
Definition state_setitem (tid : Z) (address : string) (st : mesi) : Py unit :=
  λ self,
  match coherence_states self !! tid with
  | Some d =>
      (Ret tt,
       with_coherence_states self
         (<[tid := <[address:=st]> d]> (coherence_states self)))
  | None => (Raise KeyError, self)
  end.

(** [self.metrics['cache_misses'] += n] and its two siblings. *)
Definition add_cache_misses (n : Z) : Py unit := λ self,
  let m := metrics self in
  (Ret tt, with_metrics self
     (mkMetrics (cache_misses m + n) (coherence_messages m) (memory_accesses m))).
Definition add_coherence_messages (n : Z) : Py unit := λ self,
  let m := metrics self in
  (Ret tt, with_metrics self
     (mkMetrics (cache_misses m) (coherence_messages m + n) (memory_accesses m))).
Definition add_memory_accesses (n : Z) : Py unit := λ self,
  let m := metrics self in
  (Ret tt, with_metrics self
     (mkMetrics (cache_misses m) (coherence_messages m) (memory_accesses m + n))).

(** [any(address in c for tid, c in self.caches.items() if tid != thread_id)] *)
Definition any_other_copy (thread_id : Z) (address : string) : Py bool :=
  λ self,
  (Ret (existsb (λ '(tid, c), bool_decide (tid ≠ thread_id)
                              && bool_decide (is_Some (c !! address)))
                (caches self)), self).

(** ** The methods *)

Definition __init__ (protocol : string) : CacheSimulator :=
  mkSim protocol [] ∅ (mkMetrics 0 0 0) ∅.

Definition init_thread_cache (thread_id : Z) : Py unit := λ self,
  let self := with_caches self (dict_set (caches self) thread_id ∅) in
  if bool_decide (protocol self = "MESI") then
    (Ret tt, with_coherence_states self
               (<[thread_id := ∅]> (coherence_states self)))
  else (Ret tt, self).

Definition access_without_coherence
    (thread_id : Z) (address access_type : string) (rnd : Z) : Py Z :=
  _ ← caches_getitem thread_id;
  cached ← cache_contains thread_id address;
  (if negb cached then
     add_cache_misses 1;;
     shared_setdefault0 address;;
     v ← shared_getitem address;
     cache_setitem thread_id address v
   else ret tt);;
  if bool_decide (access_type = "read") then
    cache_getitem thread_id address
  else
    cache_setitem thread_id address rnd;;
    shared_setitem address rnd;;
    ret rnd.

Definition access_with_mesi
    (thread_id : Z) (address access_type : string) (rnd : Z) : Py Z :=
  _ ← caches_getitem thread_id;
  state ← state_getitem thread_id address;
  cached ← cache_contains thread_id address;
  (if negb cached || bool_decide (state = Invalid) then
     add_cache_misses 1;;
     other_has_copy ← any_other_copy thread_id address;
     shared_setdefault0 address;;
     (if bool_decide (access_type = "read") then
        if other_has_copy then
          tids ← caches_keys;
          for_each tids (λ tid,
            present ← state_contains tid address;
            if present then state_setitem tid address Shared else ret tt);;
          add_coherence_messages 2;;
          state_setitem thread_id address Shared
        else
          state_setitem thread_id address Exclusive;;
          add_coherence_messages 1
      else
        tids ← caches_keys;
        for_each tids (λ tid,
          if bool_decide (tid ≠ thread_id) then
            present ← state_contains tid address;
            if present then state_setitem tid address Invalid else ret tt
          else ret tt);;
        state_setitem thread_id address Modified;;
        add_coherence_messages 2);;
     v ← shared_getitem address;
     cache_setitem thread_id address v
   else ret tt);;
  if bool_decide (access_type = "read") then
    cache_getitem thread_id address
  else
    (if bool_decide (state = Shared) then
       state_setitem thread_id address Modified;;
       tids ← caches_keys;
       for_each tids (λ tid,
         if bool_decide (tid ≠ thread_id) then
           present ← state_contains tid address;
           if present then state_setitem tid address Invalid else ret tt
         else ret tt);;
       add_coherence_messages 1
     else ret tt);;
    cache_setitem thread_id address rnd;;
    shared_setitem address rnd;;
    ret rnd.

Definition access_memory
    (thread_id : Z) (address access_type : string) (rnd : Z) : Py Z :=
  add_memory_accesses 1;;
  p ← get_protocol;
  if bool_decide (p = "none") then
    access_without_coherence thread_id address access_type rnd
  else
    access_with_mesi thread_id address access_type rnd.

(** ** Observations and the transition system *)

(** The entry of core [tid] for [address] in the coherence-state table, if one
    was ever recorded. *)
Definition entry (self : CacheSimulator) (tid : Z) (address : string)
    : option mesi :=
  coherence_states self !! tid ≫= (.!! address).

(** The coherence state of a core for an address: what the table reports,
    ['I'] when nothing is recorded. *)
Definition core_state (self : CacheSimulator) (tid : Z) (address : string)
    : mesi :=
  default Invalid (entry self tid address).

(** The entry of core [tid]'s cache for [address]. *)
Definition cache_entry (self : CacheSimulator) (tid : Z) (address : string)
    : option Z :=
  dict_get (caches self) tid ≫= (.!! address).

(** A core is registered once [init_thread_cache] has run for it. *)
Definition registered (self : CacheSimulator) (tid : Z) : Prop :=
  is_Some (dict_get (caches self) tid).

(** Whether some core other than [thread_id] has a cache entry for
    [address], as line 53 computes it. *)
Definition other_has_copy (self : CacheSimulator) (thread_id : Z)
    (address : string) : bool :=
  existsb (λ '(tid, c), bool_decide (tid ≠ thread_id)
                        && bool_decide (is_Some (c !! address)))
          (caches self).

(** Every core with a cache has a coherence-state table. *)
Definition tables_ok (self : CacheSimulator) : Prop :=
  Forall (λ tid, is_Some (coherence_states self !! tid))
         (dict_keys (caches self)).

(** The state after line 27 of [access_memory]: the access is counted. *)
Definition counted (self : CacheSimulator) : CacheSimulator :=
  with_metrics self
    (mkMetrics (cache_misses (metrics self))
       (coherence_messages (metrics self))
       (memory_accesses (metrics self) + 1)).

(** The calls a driver makes on an engine. *)
Inductive call : Type :=
  | InitThreadCache (thread_id : Z)
  | AccessMemory (thread_id : Z) (address access_type : string) (rnd : Z).

(** The state a call leaves, whether it returns or raises. *)
Definition perform (c : call) (self : CacheSimulator) : CacheSimulator :=
  match c with
  | InitThreadCache tid => (init_thread_cache tid self).2
  | AccessMemory tid address access_type rnd =>
      (access_memory tid address access_type rnd self).2
  end.

Definition run (calls : list call) (self : CacheSimulator) : CacheSimulator :=
  foldl (λ s c, perform c s) self calls.

(** The states of an engine built with [CacheSimulator(protocol)]. *)
Inductive reachable (p : string) : CacheSimulator → Prop :=
  | reachable_init : reachable p (__init__ p)
  | reachable_perform self c :
      reachable p self → reachable p (perform c self).

(** *** The fan-out loops, as a function on the table

    [fan] is what a loop [for tid in self.caches] does to
    [self.coherence_states] when no lookup raises ([for_each_fan]). *)

Definition touch (st : mesi) (address : string) (d : gmap string mesi)
    : gmap string mesi :=
  if bool_decide (is_Some (d !! address)) then <[address:=st]> d else d.

Definition fan_step (st : mesi) (address : string)
    (cs : gmap Z (gmap string mesi)) (tid : Z) : gmap Z (gmap string mesi) :=
  match cs !! tid with
  | Some d => <[tid := touch st address d]> cs
  | None => cs
  end.

Definition fan (P : Z → bool) (st : mesi) (address : string) (tids : list Z)
    (cs : gmap Z (gmap string mesi)) : gmap Z (gmap string mesi) :=
  foldl (λ cs tid, if P tid then fan_step st address cs tid else cs) cs tids.

(** The loop body of lines 58-60, 67-69 and 78-80; [P] is the test on [tid]. *)
Definition fan_body (P : Z → bool) (st : mesi) (address : string) (tid : Z)
    : Py unit :=
  if P tid then
    present ← state_contains tid address;
    if present then state_setitem tid address st else ret tt
  else ret tt.

(** *** The branches of one MESI access

    The outcome of each branch of [access_with_mesi], used to state its
    effect; [access_with_mesi_returns] proves that the method agrees. *)

Definition is_miss (cached : bool) (st : mesi) : bool :=
  negb cached || bool_decide (st = Invalid).

(** The requester's state after the access. *)
Definition own_after (miss rd ohc : bool) (st : mesi) : mesi :=
  if rd then (if miss then (if ohc then Shared else Exclusive) else st)
  else if miss then Modified
  else if bool_decide (st = Shared) then Modified else st.

(** What the fan-out stores in the recorded entries of the other cores;
    [None] when no loop runs. *)
Definition others_after (miss rd ohc : bool) (st : mesi) : option mesi :=
  if rd then (if miss && ohc then Some Shared else None)
  else if miss || bool_decide (st = Shared) then Some Invalid else None.

(** The coherence messages charged. *)
Definition messages (miss rd ohc : bool) (st : mesi) : Z :=
  (if miss then (if rd then (if ohc then 2 else 1) else 2) else 0)
  + (if negb rd && bool_decide (st = Shared) then 1 else 0).

(** Whether core [tid] has a cache entry for [address]. *)
Definition is_cached (self : CacheSimulator) (tid : Z) (address : string)
    : bool :=
  bool_decide (is_Some (cache_entry self tid address)).

(** What a MESI access by [thread_id] to [address] does from [self] when it
    returns [v] and leaves [self']; [rd] is [access_type == 'read'] and [n]
    the accesses counted: 0 by [access_with_mesi] itself, 1 through
    [access_memory]. *)
Record mesi_effect (n : Z) (thread_id : Z) (address : string) (rd : bool)
    (rnd : Z) (self : CacheSimulator) (v : Z) (self' : CacheSimulator)
    : Prop := {
  me_protocol : protocol self' = protocol self;
  me_keys : dict_keys (caches self') = dict_keys (caches self);
  me_cache_other : ∀ t a, t ≠ thread_id →
    cache_entry self' t a = cache_entry self t a;
  me_cache_ne : ∀ a, a ≠ address →
    cache_entry self' thread_id a = cache_entry self thread_id a;
  me_cache_own : cache_entry self' thread_id address = Some v;
  me_value :
    let miss := is_miss (is_cached self thread_id address)
                        (core_state self thread_id address) in
    v = if rd then
          if miss then default 0 (shared_memory self !! address)
          else default 0 (cache_entry self thread_id address)
        else rnd;
  me_shared_ne : ∀ a, a ≠ address →
    shared_memory self' !! a = shared_memory self !! a;
  me_shared :
    let miss := is_miss (is_cached self thread_id address)
                        (core_state self thread_id address) in
    shared_memory self' !! address
    = if rd then
        if miss then Some (default 0 (shared_memory self !! address))
        else shared_memory self !! address
      else Some rnd;
  me_misses :
    let miss := is_miss (is_cached self thread_id address)
                        (core_state self thread_id address) in
    cache_misses (metrics self')
    = cache_misses (metrics self) + (if miss then 1 else 0);
  me_messages :
    let st := core_state self thread_id address in
    let miss := is_miss (is_cached self thread_id address) st in
    coherence_messages (metrics self')
    = coherence_messages (metrics self)
      + messages miss rd (other_has_copy self thread_id address) st;
  me_accesses :
    memory_accesses (metrics self') = memory_accesses (metrics self) + n;
  me_tables : ∀ t,
    is_Some (coherence_states self' !! t)
    ↔ is_Some (coherence_states self !! t);
  me_entry_ne : ∀ t a, a ≠ address → entry self' t a = entry self t a;
  me_entry_own :
    let st := core_state self thread_id address in
    let miss := is_miss (is_cached self thread_id address) st in
    entry self' thread_id address
    = Some (own_after miss rd (other_has_copy self thread_id address) st);
  me_entry_other : ∀ t, t ≠ thread_id →
    let st := core_state self thread_id address in
    let miss := is_miss (is_cached self thread_id address) st in
    entry self' t address
    = match others_after miss rd (other_has_copy self thread_id address) st
      with
      | Some s =>
          if decide (t ∈ dict_keys (caches self))
          then (λ _, s) <$> entry self t address
          else entry self t address
      | None => entry self t address
      end
}.

(** What an access without coherence does, in the same terms. *)
Record plain_effect (n : Z) (thread_id : Z) (address : string) (rd : bool)
    (rnd : Z) (self : CacheSimulator) (v : Z) (self' : CacheSimulator)
    : Prop := {
  pe_protocol : protocol self' = protocol self;
  pe_keys : dict_keys (caches self') = dict_keys (caches self);
  pe_cache_other : ∀ t a, t ≠ thread_id →
    cache_entry self' t a = cache_entry self t a;
  pe_cache_ne : ∀ a, a ≠ address →
    cache_entry self' thread_id a = cache_entry self thread_id a;
  pe_cache_own : cache_entry self' thread_id address = Some v;
  pe_value :
    v = if rd then
          if is_cached self thread_id address
          then default 0 (cache_entry self thread_id address)
          else default 0 (shared_memory self !! address)
        else rnd;
  pe_shared_ne : ∀ a, a ≠ address →
    shared_memory self' !! a = shared_memory self !! a;
  pe_shared :
    shared_memory self' !! address
    = if rd then
        if is_cached self thread_id address
        then shared_memory self !! address
        else Some (default 0 (shared_memory self !! address))
      else Some rnd;
  pe_misses :
    cache_misses (metrics self')
    = cache_misses (metrics self)
      + (if is_cached self thread_id address then 0 else 1);
  pe_messages :
    coherence_messages (metrics self') = coherence_messages (metrics self);
  pe_accesses :
    memory_accesses (metrics self') = memory_accesses (metrics self) + n;
  pe_states : coherence_states self' = coherence_states self
}.

(** What every statement keeps, whether it returns or raises. *)
Record grows (self self' : CacheSimulator) : Prop := {
  gr_protocol : protocol self' = protocol self;
  gr_misses : (cache_misses (metrics self) ≤ cache_misses (metrics self'))%Z;
  gr_messages :
    (coherence_messages (metrics self) ≤ coherence_messages (metrics self'))%Z;
  gr_accesses :
    (memory_accesses (metrics self) ≤ memory_accesses (metrics self'))%Z;
  gr_no_tables :
    protocol self ≠ "MESI" →
    coherence_states self = ∅ → coherence_states self' = ∅
}.

Definition keeps {A} (m : Py A) : Prop := ∀ self, grows self (m self).2.

(** The invariant of an engine in MESI mode. *)
Record coherent (self : CacheSimulator) : Prop := {
  co_protocol : protocol self = "MESI";
  co_tables : tables_ok self;
  co_entries : ∀ t a,
    is_Some (entry self t a) ↔ is_Some (cache_entry self t a);
  co_owner : ∀ t1 t2 a, t1 ≠ t2 →
    core_state self t1 a = Modified ∨ core_state self t1 a = Exclusive →
    core_state self t2 a = Invalid
}.

(** [returns m self Q]: from [self], [m] returns (raises nothing) and the
    value and state it leaves satisfy [Q]. *)
Definition returns {A} (m : Py A) (self : CacheSimulator)
    (Q : A → CacheSimulator → Prop) : Prop :=
  ∃ a self', m self = (Ret a, self') ∧ Q a self'.

(** A core owns a line when it holds it Modified or Exclusive. *)
Definition owns (self : CacheSimulator) (tid : Z) (address : string) : Prop :=
  core_state self tid address = Modified
  ∨ core_state self tid address = Exclusive.

(** ** The driver's worker and the counters *)

(** The number of [access_memory] calls in a list of calls. *)
Fixpoint access_calls (calls : list call) : Z :=
  match calls with
  | [] => 0
  | AccessMemory _ _ _ _ :: r => 1 + access_calls r
  | InitThreadCache _ :: r => access_calls r
  end.

(** The counters before and after one call. *)
Record counts_one (k : Z) (self self' : CacheSimulator) : Prop := {
  cnt_accesses :
    memory_accesses (metrics self') = memory_accesses (metrics self) + k;
  cnt_misses :
    (cache_misses (metrics self) ≤ cache_misses (metrics self')
     ≤ cache_misses (metrics self) + k)%Z;
  cnt_messages :
    (coherence_messages (metrics self) ≤ coherence_messages (metrics self')
     ≤ coherence_messages (metrics self)
       + (cache_misses (metrics self') - cache_misses (metrics self)) + k)%Z
}.

(** Holders of a line that is Modified or Exclusive cache the value the
    shared store holds. *)
Definition owners_fresh (self : CacheSimulator) : Prop :=
  ∀ t a, owns self t a →
    ∃ v, cache_entry self t a = Some v ∧ shared_memory self !! a = Some v.

(** The outcomes of [random.choice(['A', 'B', 'C', 'D'])]. *)
Inductive address_choice : Type := choice_A | choice_B | choice_C | choice_D.

#[global] Instance address_choice_eq_dec : EqDecision address_choice.
Proof. solve_decision. Defined.

Definition address_of (c : address_choice) : string :=
  match c with
  | choice_A => "A"
  | choice_B => "B"
  | choice_C => "C"
  | choice_D => "D"
  end.

(** The outcomes of [random.choice(['read', 'write'])]. *)
Inductive kind_choice : Type := choice_read | choice_write.

Definition access_type_of (k : kind_choice) : string :=
  match k with
  | choice_read => "read"
  | choice_write => "write"
  end.

(** What the random generator hands out in one iteration of the worker's
    loop: the address, the access type, and the number [random.randint]
    returns if the access asks for one. *)
Record draw : Type := mkDraw {
  drawn_address : address_choice;
  drawn_kind : kind_choice;
  drawn_value : Z
}.

(** [worker(thread_id, cache_sim, num_operations)], run from the engine state
    [cache_sim]; [num_operations] is the length of [draws]. The pause
    [time.sleep(0.001)] leaves the engine as it is. *)
Definition worker (thread_id : Z) (draws : list draw) : Py unit :=
  init_thread_cache thread_id;;
  for_each draws (λ d,
    _ ← access_memory thread_id (address_of (drawn_address d))
          (access_type_of (drawn_kind d)) (drawn_value d);
    ret tt).

(** The draws whose address is neither in [seen] nor drawn earlier. *)
Fixpoint new_addresses (seen : list address_choice) (draws : list draw) : Z :=
  match draws with
  | [] => 0
  | d :: r =>
      (if bool_decide (drawn_address d ∈ seen) then 0 else 1)
      + new_addresses (drawn_address d :: seen) r
  end.

(** The state of a worker's core in the middle of its loop: the addresses
    in [seen] are the ones it has cached, and they are valid. *)
Record warm (p : string) (self : CacheSimulator) (thread_id : Z)
    (seen : list address_choice) : Prop := {
  wm_reachable : reachable p self;
  wm_registered : registered self thread_id;
  wm_cached : ∀ c,
    is_cached self thread_id (address_of c) = bool_decide (c ∈ seen);
  wm_valid : ∀ c, c ∈ seen → protocol self ≠ "none" →
    core_state self thread_id (address_of c) ≠ Invalid
}.

(** The addresses of the driver not in [seen]. *)
Definition unseen (seen : list address_choice) : Z :=
  (if bool_decide (choice_A ∈ seen) then 0 else 1)
  + (if bool_decide (choice_B ∈ seen) then 0 else 1)
  + (if bool_decide (choice_C ∈ seen) then 0 else 1)
  + (if bool_decide (choice_D ∈ seen) then 0 else 1).

(** ** Dictionaries *)

Section pydict.
Context {V : Type}.
Implicit Types (d : pydict V) (k : Z) (v : V).

Lemma dict_get_set_eq d k v : dict_get (dict_set d k v) k = Some v.
Proof.
  induction d as [|[k' v'] r IH]; simpl.
  - by rewrite decide_True.
  - destruct (decide (k' = k)) as [->|Hne]; simpl.
    + by rewrite decide_True.
    + by rewrite decide_False.
Qed.

Lemma dict_get_set_ne d k k' v :
  k ≠ k' → dict_get (dict_set d k v) k' = dict_get d k'.
Proof.
  intros Hne. induction d as [|[k0 v0] r IH]; simpl.
  - by rewrite decide_False.
  - destruct (decide (k0 = k)) as [->|Hne0]; simpl.
    + by rewrite !decide_False.
    + by rewrite IH.
Qed.

Lemma dict_get_keys d k : is_Some (dict_get d k) ↔ k ∈ dict_keys d.
Proof.
  unfold dict_keys. induction d as [|[k0 v0] r IH]; simpl.
  - split; [by intros [? ?] | by intros ?%elem_of_nil].
  - rewrite elem_of_cons. destruct (decide (k0 = k)) as [->|Hne].
    + split; eauto.
    + rewrite IH. split; [by right | by intros [?|?]].
Qed.

Lemma dict_get_elem d k v : dict_get d k = Some v → (k, v) ∈ d.
Proof.
  induction d as [|[k0 v0] r IH]; simpl; [done|].
  destruct (decide (k0 = k)) as [->|Hne].
  - intros [= ->]. left.
  - intros ?. right. auto.
Qed.

Lemma dict_keys_set_present d k v :
  is_Some (dict_get d k) → dict_keys (dict_set d k v) = dict_keys d.
Proof.
  unfold dict_keys. induction d as [|[k0 v0] r IH]; simpl.
  - by intros [? ?].
  - destruct (decide (k0 = k)) as [->|Hne]; simpl; [done|].
    intros H. f_equal. by apply IH.
Qed.

Lemma dict_keys_set d k k' v :
  k' ∈ dict_keys (dict_set d k v) ↔ k' = k ∨ k' ∈ dict_keys d.
Proof.
  rewrite <- !dict_get_keys. destruct (decide (k = k')) as [->|Hne].
  - rewrite dict_get_set_eq. split; [by left | by eauto].
  - rewrite dict_get_set_ne by done. split; [by right | by intros [?|?]].
Qed.
End pydict.

(** ** The fan-out loops *)

Lemma touch_touch st address d :
  touch st address (touch st address d) = touch st address d.
Proof.
  unfold touch. destruct (bool_decide (is_Some (d !! address))) eqn:Hd.
  - rewrite lookup_insert_eq, bool_decide_true by eauto.
    by rewrite insert_insert_eq.
  - by rewrite Hd.
Qed.

Lemma lookup_touch_ne st address address' d :
  address' ≠ address → touch st address d !! address' = d !! address'.
Proof.
  intros Hne. unfold touch. case_bool_decide; [|done].
  by rewrite lookup_insert_ne.
Qed.

Lemma lookup_touch_eq st address d :
  touch st address d !! address = (λ _, st) <$> d !! address.
Proof.
  unfold touch. case_bool_decide as Hd.
  - destruct Hd as [x ->]. by rewrite lookup_insert_eq.
  - apply eq_None_not_Some in Hd. by rewrite Hd.
Qed.

Lemma lookup_fan_step st address cs tid t :
  fan_step st address cs tid !! t
  = if decide (t = tid) then touch st address <$> cs !! t else cs !! t.
Proof.
  unfold fan_step. destruct (decide (t = tid)) as [->|Hne].
  - destruct (cs !! tid) as [d|] eqn:Hd; simpl.
    + by rewrite lookup_insert_eq.
    + by rewrite Hd.
  - destruct (cs !! tid) as [d|]; [|done]. by rewrite lookup_insert_ne.
Qed.

Lemma lookup_fan P st address tids cs t :
  fan P st address tids cs !! t
  = if decide (t ∈ tids ∧ P t = true)
    then touch st address <$> cs !! t else cs !! t.
Proof.
  unfold fan. revert cs. induction tids as [|x r IH]; intros cs.
  - case_decide as H; [|done]. by destruct H as [?%elem_of_nil _].
  - cbn [foldl]. rewrite IH. clear IH.
    assert ((if P x then fan_step st address cs x else cs) !! t
            = if decide (t = x ∧ P x = true)
              then touch st address <$> cs !! t else cs !! t) as ->.
    { destruct (P x).
      - rewrite lookup_fan_step. apply decide_ext. tauto.
      - rewrite decide_False; [done|]. by intros [_ ?]. }
    destruct (decide (t ∈ r ∧ P t = true)) as [[Hr Ht]|Hr];
      destruct (decide (t = x ∧ P x = true)) as [[-> Hx]|Hx].
    + rewrite decide_True by (split; [left|done]).
      rewrite <- option_fmap_compose. apply option_fmap_ext.
      intros d. apply touch_touch.
    + by rewrite decide_True by (split; [by right|done]).
    + by rewrite decide_True by (split; [left|done]).
    + rewrite decide_False; [done|]. intros [[->|?]%elem_of_cons ?]; tauto.
Qed.

Lemma for_each_fan P st address tids self :
  (∀ t, t ∈ tids → P t = true → is_Some (coherence_states self !! t)) →
  for_each tids (fan_body P st address) self
  = (Ret tt,
     with_coherence_states self
       (fan P st address tids (coherence_states self))).
Proof.
  unfold fan. revert self. induction tids as [|x r IH]; intros self Hok.
  - by destruct self.
  - simpl. unfold bind at 1, fan_body at 1.
    destruct (P x) eqn:HP.
    + destruct (Hok x) as [d Hd]; [left|done|].
      unfold bind, state_contains, state_setitem, fan_step, touch, ret.
      rewrite Hd. case_bool_decide.
      * rewrite Hd. rewrite IH; [done|]. intros t Ht HPt. simpl.
        rewrite lookup_insert. case_decide; [eauto|].
        apply Hok; [by right|done].
      * rewrite IH by (intros; apply Hok; [by right|done]).
        simpl. by rewrite insert_id.
    + unfold ret. rewrite IH by (intros; apply Hok; [by right|done]). done.
Qed.

(** ** Calls that return *)

Lemma returns_ret {A} (a : A) self Q : Q a self → returns (ret a) self Q.
Proof. intros HQ. by exists a, self. Qed.

Lemma returns_bind {A B} (m : Py A) (f : A → Py B) self Q :
  returns m self (λ a s, returns (f a) s Q) → returns (bind m f) self Q.
Proof.
  intros (a & s & Hm & b & s' & Hf & HQ). exists b, s'.
  unfold bind. by rewrite Hm.
Qed.

Lemma returns_caches_getitem tid self c Q :
  dict_get (caches self) tid = Some c →
  Q c self → returns (caches_getitem tid) self Q.
Proof. intros Hc HQ. exists c, self. unfold caches_getitem. by rewrite Hc. Qed.

Lemma returns_caches_keys self Q :
  Q (dict_keys (caches self)) self → returns caches_keys self Q.
Proof. intros HQ. by eexists _, _. Qed.

Lemma returns_cache_contains tid address self c Q :
  dict_get (caches self) tid = Some c →
  Q (bool_decide (is_Some (c !! address))) self →
  returns (cache_contains tid address) self Q.
Proof.
  intros Hc HQ. eexists _, _. unfold cache_contains. by rewrite Hc.
Qed.

Lemma returns_cache_getitem tid address self v Q :
  cache_entry self tid address = Some v →
  Q v self → returns (cache_getitem tid address) self Q.
Proof.
  unfold cache_entry. intros Hc HQ. exists v, self.
  unfold cache_getitem. by rewrite Hc.
Qed.

Lemma returns_cache_setitem tid address v self c Q :
  dict_get (caches self) tid = Some c →
  Q tt (with_caches self (dict_set (caches self) tid (<[address:=v]> c))) →
  returns (cache_setitem tid address v) self Q.
Proof.
  intros Hc HQ. eexists _, _. unfold cache_setitem. by rewrite Hc.
Qed.

Lemma returns_shared_getitem address self v Q :
  shared_memory self !! address = Some v →
  Q v self → returns (shared_getitem address) self Q.
Proof.
  intros Hc HQ. exists v, self. unfold shared_getitem. by rewrite Hc.
Qed.

Lemma returns_shared_setitem address v self Q :
  Q tt (with_shared_memory self (<[address:=v]> (shared_memory self))) →
  returns (shared_setitem address v) self Q.
Proof. intros HQ. by eexists _, _. Qed.

Lemma returns_shared_setdefault0 address self Q :
  Q tt (with_shared_memory self
          (<[address := default 0 (shared_memory self !! address)]>
             (shared_memory self))) →
  returns (shared_setdefault0 address) self Q.
Proof.
  intros HQ. unfold returns, shared_setdefault0, shared_setitem.
  destruct (shared_memory self !! address) as [v|] eqn:Hv; simpl in HQ.
  - rewrite insert_id in HQ by done. exists tt, self. by destruct self.
  - by eexists _, _.
Qed.

Lemma returns_state_getitem tid address self d Q :
  coherence_states self !! tid = Some d →
  Q (default Invalid (d !! address))
    (with_coherence_states self
       (<[tid := <[address := default Invalid (d !! address)]> d]>
          (coherence_states self))) →
  returns (state_getitem tid address) self Q.
Proof.
  intros Hd HQ. unfold returns, state_getitem. rewrite Hd.
  destruct (d !! address) as [st|] eqn:Hst; simpl in HQ.
  - rewrite (insert_id d) in HQ by done. rewrite insert_id in HQ by done.
    exists st, self. by destruct self.
  - by eexists _, _.
Qed.

Lemma returns_state_setitem tid address st self d Q :
  coherence_states self !! tid = Some d →
  Q tt (with_coherence_states self
          (<[tid := <[address:=st]> d]> (coherence_states self))) →
  returns (state_setitem tid address st) self Q.
Proof.
  intros Hd HQ. eexists _, _. unfold state_setitem. by rewrite Hd.
Qed.

Lemma returns_add_cache_misses n self Q :
  Q tt (with_metrics self
          (mkMetrics (cache_misses (metrics self) + n)
             (coherence_messages (metrics self))
             (memory_accesses (metrics self)))) →
  returns (add_cache_misses n) self Q.
Proof. intros HQ. by eexists _, _. Qed.

Lemma returns_add_coherence_messages n self Q :
  Q tt (with_metrics self
          (mkMetrics (cache_misses (metrics self))
             (coherence_messages (metrics self) + n)
             (memory_accesses (metrics self)))) →
  returns (add_coherence_messages n) self Q.
Proof. intros HQ. by eexists _, _. Qed.

Lemma returns_add_memory_accesses n self Q :
  Q tt (with_metrics self
          (mkMetrics (cache_misses (metrics self))
             (coherence_messages (metrics self))
             (memory_accesses (metrics self) + n))) →
  returns (add_memory_accesses n) self Q.
Proof. intros HQ. by eexists _, _. Qed.

Lemma returns_get_protocol self Q :
  Q (protocol self) self → returns get_protocol self Q.
Proof. intros HQ. by eexists _, _. Qed.

Lemma returns_any_other_copy tid address self Q :
  Q (other_has_copy self tid address) self →
  returns (any_other_copy tid address) self Q.
Proof. intros HQ. by eexists _, _. Qed.

Lemma returns_for_each_fan P st address tids self Q :
  (∀ t, t ∈ tids → P t = true → is_Some (coherence_states self !! t)) →
  Q tt (with_coherence_states self
          (fan P st address tids (coherence_states self))) →
  returns (for_each tids (fan_body P st address)) self Q.
Proof. intros Hok HQ. eexists _, _. by rewrite for_each_fan. Qed.

(** ** Entries of an updated table *)

Section tables.
Implicit Types (cs : gmap Z (gmap string mesi)) (d : gmap string mesi).

Lemma table_insert_is_Some cs tid d d' t :
  cs !! tid = Some d →
  is_Some (<[tid := d']> cs !! t) ↔ is_Some (cs !! t).
Proof.
  intros Hd. rewrite lookup_insert. case_decide; subst; [|done].
  rewrite Hd. split; eauto.
Qed.

Lemma table_fan_is_Some P st address tids cs t :
  is_Some (fan P st address tids cs !! t) ↔ is_Some (cs !! t).
Proof. rewrite lookup_fan. case_decide; [|done]. apply fmap_is_Some. Qed.

Lemma entry_insert cs tid d address st t a :
  cs !! tid = Some d →
  <[tid := <[address:=st]> d]> cs !! t ≫= (.!! a)
  = if decide (t = tid ∧ a = address) then Some st else cs !! t ≫= (.!! a).
Proof.
  intros Hd. rewrite lookup_insert.
  destruct (decide (tid = t)) as [->|Hne]; simpl.
  - rewrite lookup_insert, Hd. simpl.
    destruct (decide (address = a)) as [->|Hne].
    + by rewrite decide_True.
    + rewrite decide_False; [done|]. by intros [_ ->].
  - rewrite decide_False; [done|]. by intros [-> _].
Qed.

Lemma entry_fan P st address tids cs t a :
  fan P st address tids cs !! t ≫= (.!! a)
  = if decide (t ∈ tids ∧ P t = true ∧ a = address)
    then (λ _, st) <$> (cs !! t ≫= (.!! a)) else cs !! t ≫= (.!! a).
Proof.
  rewrite lookup_fan.
  destruct (decide (t ∈ tids ∧ P t = true)) as [[Ht HP]|Hn].
  - destruct (cs !! t) as [d|]; simpl; [|by case_decide].
    destruct (decide (a = address)) as [->|Hne].
    + rewrite decide_True by done. apply lookup_touch_eq.
    + rewrite decide_False by (by intros (_ & _ & ?)).
      by apply lookup_touch_ne.
  - rewrite decide_False; [done|]. intros (? & ? & ?). by apply Hn.
Qed.
End tables.

Section entries.
Implicit Types (cs : gmap Z (gmap string mesi)) (d : gmap string mesi).

Lemma entry_insert_own cs tid d address st :
  <[tid := <[address:=st]> d]> cs !! tid ≫= (.!! address) = Some st.
Proof. rewrite lookup_insert_eq. simpl. apply lookup_insert_eq. Qed.

Lemma entry_insert_other cs tid d t a :
  t ≠ tid → <[tid := d]> cs !! t ≫= (.!! a) = cs !! t ≫= (.!! a).
Proof. intros Hne. by rewrite lookup_insert_ne. Qed.

Lemma entry_insert_addr cs tid d address st t a :
  cs !! tid = Some d → a ≠ address →
  <[tid := <[address:=st]> d]> cs !! t ≫= (.!! a) = cs !! t ≫= (.!! a).
Proof.
  intros Hd Hne. rewrite entry_insert by done.
  rewrite decide_False; [done|]. by intros [_ ?].
Qed.

Lemma entry_fan_addr P st address tids cs t a :
  a ≠ address →
  fan P st address tids cs !! t ≫= (.!! a) = cs !! t ≫= (.!! a).
Proof.
  intros Hne. rewrite entry_fan.
  rewrite decide_False; [done|]. by intros (_ & _ & ?).
Qed.

Lemma entry_fan_all st address tids cs t :
  fan (λ _, true) st address tids cs !! t ≫= (.!! address)
  = if decide (t ∈ tids)
    then (λ _, st) <$> (cs !! t ≫= (.!! address))
    else cs !! t ≫= (.!! address).
Proof. rewrite entry_fan. apply decide_ext. tauto. Qed.

Lemma entry_fan_others tid st address tids cs t :
  t ≠ tid →
  fan (λ x, bool_decide (x ≠ tid)) st address tids cs !! t ≫= (.!! address)
  = if decide (t ∈ tids)
    then (λ _, st) <$> (cs !! t ≫= (.!! address))
    else cs !! t ≫= (.!! address).
Proof.
  intros Hne. rewrite entry_fan. apply decide_ext.
  rewrite bool_decide_eq_true. tauto.
Qed.

Lemma lookup_fan_self tid st address tids cs :
  fan (λ x, bool_decide (x ≠ tid)) st address tids cs !! tid = cs !! tid.
Proof.
  rewrite lookup_fan. rewrite decide_False; [done|].
  rewrite bool_decide_eq_true. tauto.
Qed.
End entries.

(** ** Stepping through a method body *)

Ltac reduce_state :=
  cbn [caches coherence_states shared_memory metrics protocol
       cache_misses coherence_messages memory_accesses
       with_caches with_coherence_states with_shared_memory with_metrics].

Ltac reduce_state_in H :=
  cbn [caches coherence_states shared_memory metrics protocol
       cache_misses coherence_messages memory_accesses
       with_caches with_coherence_states with_shared_memory with_metrics]
    in H.

Ltac dicts :=
  repeat first
    [ rewrite dict_get_set_eq
    | rewrite dict_get_set_ne by done
    | rewrite dict_keys_set_present
        by (rewrite ?dict_get_set_eq; first [ by eexists | eauto ]) ].

Ltac table_is_Some :=
  reduce_state;
  repeat first
    [ rewrite table_fan_is_Some
    | erewrite table_insert_is_Some by eassumption ];
  first [ done | eexists; eassumption | eauto ].

Ltac step :=
  lazymatch goal with
  | |- returns (bind _ _) _ _ => apply returns_bind
  | |- returns (ret _) _ _ => apply returns_ret
  | |- returns (add_cache_misses _) _ _ => apply returns_add_cache_misses
  | |- returns (add_coherence_messages _) _ _ =>
      apply returns_add_coherence_messages
  | |- returns (any_other_copy _ _) _ _ => apply returns_any_other_copy
  | |- returns (shared_setdefault0 _) _ _ => apply returns_shared_setdefault0
  | |- returns (shared_setitem _ _) _ _ => apply returns_shared_setitem
  | |- returns caches_keys _ _ => apply returns_caches_keys
  | |- returns (caches_getitem _) _ _ =>
      eapply returns_caches_getitem; [eassumption|]
  | |- returns (cache_contains _ _) _ _ =>
      eapply returns_cache_contains; [eassumption|]
  | |- returns (state_getitem _ _) _ _ =>
      eapply returns_state_getitem; [eassumption|]
  | |- returns (state_setitem ?t _ _) ?s _ =>
      let d := fresh "d" in
      let H := fresh "Hd" in
      assert (is_Some (coherence_states s !! t)) as [d H];
      [ table_is_Some
      | reduce_state_in H; eapply returns_state_setitem; [exact H|] ]
  | |- returns (for_each _ (λ tid, if bool_decide (tid ≠ ?x) then _ else _))
         _ _ =>
      apply (returns_for_each_fan (λ tid, bool_decide (tid ≠ x)));
      [ intros ? ? _; table_is_Some;
        match goal with H : _ ∈ _ |- _ => revert H end; dicts; auto |]
  | |- returns (for_each _ (λ tid, bind (state_contains tid _) _)) _ _ =>
      apply (returns_for_each_fan (λ _, true));
      [ intros ? ? _; table_is_Some;
        match goal with H : _ ∈ _ |- _ => revert H end; dicts; auto |]
  | |- returns (shared_getitem _) _ _ =>
      eapply returns_shared_getitem;
      [ reduce_state; apply lookup_insert_eq |]
  | |- returns (cache_setitem _ _ _) ?s _ =>
      eapply returns_cache_setitem;
      [ reduce_state; first [ eassumption | apply dict_get_set_eq ] |]
  | |- returns (cache_getitem _ _) _ _ =>
      eapply returns_cache_getitem;
      [ unfold cache_entry; reduce_state;
        first
          [ rewrite dict_get_set_eq; apply lookup_insert_eq
          | match goal with
            | H : dict_get _ _ = Some _ |- _ =>
                rewrite H; cbn [mbind option_bind]; eassumption
            end ] |]
  end;
  reduce_state.

Ltac entries :=
  repeat first
    [ rewrite entry_insert_own
    | rewrite entry_insert_other by done
    | erewrite entry_insert_addr by first [ eassumption | done ]
    | rewrite entry_fan_addr by done
    | rewrite entry_fan_all
    | rewrite entry_fan_others by done
    | rewrite lookup_fan_self ].

Ltac known :=
  repeat match goal with
    | H : is_miss _ _ = _ |- context [is_miss _ _] => rewrite H
    | H : other_has_copy _ _ _ = _ |- context [other_has_copy _ _ _] =>
        rewrite H
    | H : bool_decide (core_state _ _ _ = Shared) = _
      |- context [bool_decide (core_state _ _ _ = Shared)] => rewrite H
    end.

Ltac fields :=
  split; cbv zeta; intros; known;
  unfold own_after, others_after, messages, entry, cache_entry;
  known; cbn [negb andb orb]; reduce_state; dicts; entries.

Ltac lookups :=
  cbn [mbind option_bind default];
  repeat match goal with
    | H : dict_get _ _ = Some _ |- context [dict_get _ _] =>
        rewrite H; cbn [mbind option_bind default]
    | H : _ !! _ = Some _ |- context [_ !! _] =>
        rewrite H; cbn [mbind option_bind default]
    end;
  repeat first
    [ rewrite lookup_insert_eq | rewrite lookup_insert_ne by done ].

Ltac close :=
  try lazymatch goal with
      | |- is_Some _ ↔ is_Some _ => by table_is_Some
      end;
  first
    [ done
    | lia
    | by lookups
    | by repeat case_decide; destruct (_ ≫= _) ].

(** ** The effect of one access *)

Lemma access_with_mesi_returns thread_id address access_type rnd self c d :
  dict_get (caches self) thread_id = Some c →
  coherence_states self !! thread_id = Some d →
  tables_ok self →
  returns (access_with_mesi thread_id address access_type rnd) self
    (mesi_effect 0 thread_id address (bool_decide (access_type = "read")) rnd
       self).
Proof.
  intros Hc Hd Hok. unfold tables_ok in Hok. rewrite Forall_forall in Hok.
  assert (Hst : default Invalid (d !! address)
                = core_state self thread_id address).
  { unfold core_state, entry. by rewrite Hd. }
  assert (Hin : bool_decide (is_Some (c !! address))
                = is_cached self thread_id address).
  { unfold is_cached, cache_entry. by rewrite Hc. }
  unfold access_with_mesi.
  do 6 step. rewrite Hst, Hin.
  change (negb ?a || bool_decide (?b = Invalid)) with (is_miss a b).
  destruct (is_miss _ _) eqn:Hmiss.
  - repeat step. destruct (bool_decide (access_type = "read")) eqn:Hrd.
    + change (other_has_copy _ _ _)
        with (other_has_copy self thread_id address).
      destruct (other_has_copy _ _ _) eqn:Hohc.
      * repeat step. fields; close.
      * repeat step. fields; close.
    + repeat step. destruct (bool_decide (_ = Shared)) eqn:Hsh.
      * repeat step. fields; close.
      * repeat step. fields; close.
  - apply orb_false_iff in Hmiss as Hmiss'. destruct Hmiss' as [Hcached Hinv].
    apply negb_false_iff in Hcached. rewrite <- Hin in Hcached.
    apply bool_decide_eq_true in Hcached as [v0 Hv0].
    repeat step. destruct (bool_decide (access_type = "read")) eqn:Hrd.
    + repeat step. fields; close.
    + repeat step. destruct (bool_decide (_ = Shared)) eqn:Hsh.
      * repeat step. fields; close.
      * repeat step. fields; close.
Qed.

Lemma access_without_coherence_returns
    thread_id address access_type rnd self c :
  dict_get (caches self) thread_id = Some c →
  returns (access_without_coherence thread_id address access_type rnd) self
    (plain_effect 0 thread_id address (bool_decide (access_type = "read")) rnd
       self).
Proof.
  intros Hc.
  assert (Hin : bool_decide (is_Some (c !! address))
                = is_cached self thread_id address).
  { unfold is_cached, cache_entry. by rewrite Hc. }
  unfold access_without_coherence.
  do 4 step. rewrite Hin.
  destruct (is_cached _ _ _) eqn:Hcached; cbn [negb].
  - apply bool_decide_eq_true in Hin as [v0 Hv0].
    repeat step. destruct (bool_decide (access_type = "read")) eqn:Hrd.
    + repeat step. split; intros; rewrite ?Hcached; unfold cache_entry;
      reduce_state; dicts; close.
    + repeat step. split; intros; rewrite ?Hcached; unfold cache_entry;
      reduce_state; dicts; close.
  - repeat step. destruct (bool_decide (access_type = "read")) eqn:Hrd.
    + repeat step. split; intros; rewrite ?Hcached; unfold cache_entry;
      reduce_state; dicts; close.
    + repeat step. split; intros; rewrite ?Hcached; unfold cache_entry;
      reduce_state; dicts; close.
Qed.

Lemma mesi_effect_counted thread_id address rd rnd self v self' :
  mesi_effect 0 thread_id address rd rnd
    (counted self) v self' →
  mesi_effect 1 thread_id address rd rnd self v self'.
Proof.
  intros [H1 H2 H3 H4 H5 H6 H7 H8 H9 H10 H11 H12 H13 H14 H15].
  split; try assumption. rewrite H11. simpl. lia.
Qed.

Lemma plain_effect_counted thread_id address rd rnd self v self' :
  plain_effect 0 thread_id address rd rnd
    (counted self) v self' →
  plain_effect 1 thread_id address rd rnd self v self'.
Proof.
  intros [H1 H2 H3 H4 H5 H6 H7 H8 H9 H10 H11 H12].
  split; try assumption. rewrite H11. simpl. lia.
Qed.

Lemma access_memory_mesi thread_id address access_type rnd self c d :
  protocol self ≠ "none" →
  dict_get (caches self) thread_id = Some c →
  coherence_states self !! thread_id = Some d →
  tables_ok self →
  returns (access_memory thread_id address access_type rnd) self
    (mesi_effect 1 thread_id address (bool_decide (access_type = "read")) rnd
       self).
Proof.
  intros Hp Hc Hd Hok. unfold access_memory.
  apply returns_bind, returns_add_memory_accesses.
  apply returns_bind, returns_get_protocol. reduce_state.
  rewrite bool_decide_false by done.
  destruct (access_with_mesi_returns thread_id address access_type rnd
              (counted self) c d)
    as (v & self' & Hrun & Heff); [done..|].
  exists v, self'. split; [done|]. by apply mesi_effect_counted.
Qed.

Lemma access_memory_plain thread_id address access_type rnd self c :
  protocol self = "none" →
  dict_get (caches self) thread_id = Some c →
  returns (access_memory thread_id address access_type rnd) self
    (plain_effect 1 thread_id address (bool_decide (access_type = "read")) rnd
       self).
Proof.
  intros Hp Hc. unfold access_memory.
  apply returns_bind, returns_add_memory_accesses.
  apply returns_bind, returns_get_protocol. reduce_state.
  rewrite bool_decide_true by done.
  destruct (access_without_coherence_returns thread_id address access_type rnd
              (counted self) c)
    as (v & self' & Hrun & Heff); [done|].
  exists v, self'. split; [done|]. by apply plain_effect_counted.
Qed.

Lemma access_memory_unregistered thread_id address access_type rnd self :
  dict_get (caches self) thread_id = None →
  access_memory thread_id address access_type rnd self
  = (Raise KeyError,
     counted self).
Proof.
  intros Hc. unfold access_memory, bind, add_memory_accesses, get_protocol.
  cbn beta iota zeta. reduce_state.
  case_bool_decide.
  - unfold access_without_coherence, bind, caches_getitem. reduce_state.
    by rewrite Hc.
  - unfold access_with_mesi, bind, caches_getitem. reduce_state.
    by rewrite Hc.
Qed.

Lemma access_memory_no_table thread_id address access_type rnd self :
  protocol self ≠ "none" →
  coherence_states self !! thread_id = None →
  access_memory thread_id address access_type rnd self
  = (Raise KeyError,
     counted self).
Proof.
  intros Hp Hd. unfold access_memory, bind, add_memory_accesses, get_protocol.
  cbn beta iota zeta. reduce_state.
  rewrite bool_decide_false by done.
  unfold access_with_mesi, bind, caches_getitem, state_getitem. reduce_state.
  destruct (dict_get (caches self) thread_id); [|done].
  cbn beta iota. reduce_state. by rewrite Hd.
Qed.

(** ** What a call keeps, whether it returns or raises *)

Lemma grows_refl self : grows self self.
Proof. split; auto; lia. Qed.

Lemma grows_trans s1 s2 s3 : grows s1 s2 → grows s2 s3 → grows s1 s3.
Proof.
  intros [Hp1 ? ? ? He1] [Hp2 ? ? ? He2]. split; try lia.
  - congruence.
  - intros Hp He. apply He2; [congruence|]. by apply He1.
Qed.

Lemma keeps_ret {A} (a : A) : keeps (ret a).
Proof. intros self. apply grows_refl. Qed.

Lemma keeps_bind {A B} (m : Py A) (f : A → Py B) :
  keeps m → (∀ a, keeps (f a)) → keeps (bind m f).
Proof.
  intros Hm Hf self. unfold bind. specialize (Hm self).
  destruct (m self) as [[a|e] s1]; [|done].
  eapply grows_trans; [exact Hm|]. apply Hf.
Qed.

Lemma keeps_for_each {A} (l : list A) (body : A → Py unit) :
  (∀ x, keeps (body x)) → keeps (for_each l body).
Proof.
  intros Hb. induction l as [|x r IH]; simpl.
  - apply keeps_ret.
  - apply keeps_bind; auto.
Qed.

Ltac keeps_prim f :=
  intros self; unfold f; simpl;
  repeat match goal with
         | |- context [match ?x with _ => _ end] => destruct x eqn:?
         end;
  try apply grows_refl;
  split; simpl; try done; try lia.

Lemma keeps_get_protocol : keeps get_protocol.
Proof. keeps_prim get_protocol. Qed.
Lemma keeps_caches_keys : keeps caches_keys.
Proof. keeps_prim caches_keys. Qed.
Lemma keeps_caches_getitem tid : keeps (caches_getitem tid).
Proof. keeps_prim caches_getitem. Qed.
Lemma keeps_cache_contains tid a : keeps (cache_contains tid a).
Proof. keeps_prim cache_contains. Qed.
Lemma keeps_cache_getitem tid a : keeps (cache_getitem tid a).
Proof. keeps_prim cache_getitem. Qed.
Lemma keeps_cache_setitem tid a v : keeps (cache_setitem tid a v).
Proof. keeps_prim cache_setitem. Qed.
Lemma keeps_shared_getitem a : keeps (shared_getitem a).
Proof. keeps_prim shared_getitem. Qed.
Lemma keeps_shared_setitem a v : keeps (shared_setitem a v).
Proof. keeps_prim shared_setitem. Qed.
Lemma keeps_shared_setdefault0 a : keeps (shared_setdefault0 a).
Proof. keeps_prim shared_setdefault0. Qed.
Lemma keeps_any_other_copy tid a : keeps (any_other_copy tid a).
Proof. keeps_prim any_other_copy. Qed.
Lemma keeps_state_contains tid a : keeps (state_contains tid a).
Proof. keeps_prim state_contains. Qed.
Lemma keeps_state_getitem tid a : keeps (state_getitem tid a).
Proof.
  keeps_prim state_getitem.
  intros _ He. rewrite He, lookup_empty in *. done.
Qed.
Lemma keeps_state_setitem tid a st : keeps (state_setitem tid a st).
Proof.
  keeps_prim state_setitem.
  intros _ He. rewrite He, lookup_empty in *. done.
Qed.
Lemma keeps_add_cache_misses n : (0 ≤ n)%Z → keeps (add_cache_misses n).
Proof. intros Hn. keeps_prim add_cache_misses. Qed.
Lemma keeps_add_coherence_messages n :
  (0 ≤ n)%Z → keeps (add_coherence_messages n).
Proof. intros Hn. keeps_prim add_coherence_messages. Qed.
Lemma keeps_add_memory_accesses n : (0 ≤ n)%Z → keeps (add_memory_accesses n).
Proof. intros Hn. keeps_prim add_memory_accesses. Qed.

Create HintDb keeps discriminated.
#[local] Hint Resolve keeps_ret keeps_get_protocol keeps_caches_keys
  keeps_caches_getitem keeps_cache_contains keeps_cache_getitem
  keeps_cache_setitem keeps_shared_getitem keeps_shared_setitem
  keeps_shared_setdefault0 keeps_any_other_copy keeps_state_contains
  keeps_state_getitem keeps_state_setitem : keeps.

Ltac keeps_body :=
  repeat first
    [ apply keeps_bind; [|intros ?]
    | apply keeps_for_each; intros ?
    | apply keeps_add_cache_misses; lia
    | apply keeps_add_coherence_messages; lia
    | apply keeps_add_memory_accesses; lia
    | solve [ auto with keeps ]
    | match goal with
      | |- keeps (if ?b then _ else _) => destruct b
      end ].

Lemma keeps_access_without_coherence thread_id address access_type rnd :
  keeps (access_without_coherence thread_id address access_type rnd).
Proof. unfold access_without_coherence. keeps_body. Qed.

Lemma keeps_access_with_mesi thread_id address access_type rnd :
  keeps (access_with_mesi thread_id address access_type rnd).
Proof. unfold access_with_mesi. keeps_body. Qed.

Lemma keeps_access_memory thread_id address access_type rnd :
  keeps (access_memory thread_id address access_type rnd).
Proof.
  unfold access_memory. keeps_body.
Qed.

Lemma keeps_init_thread_cache thread_id : keeps (init_thread_cache thread_id).
Proof.
  intros self. unfold init_thread_cache. simpl. case_bool_decide; simpl.
  - split; simpl; try done; lia.
  - split; simpl; try done; lia.
Qed.

Lemma grows_perform c self : grows self (perform c self).
Proof.
  destruct c; simpl.
  - apply keeps_init_thread_cache.
  - apply keeps_access_memory.
Qed.

Lemma grows_run calls self : grows self (run calls self).
Proof.
  unfold run. revert self. induction calls as [|c r IH]; intros self; simpl.
  - apply grows_refl.
  - eapply grows_trans; [apply grows_perform | apply IH].
Qed.

Lemma reachable_protocol p self : reachable p self → protocol self = p.
Proof.
  induction 1 as [|self c _ IH]; [done|].
  rewrite <- IH. apply grows_perform.
Qed.

Lemma reachable_no_tables p self :
  p ≠ "MESI" → reachable p self → coherence_states self = ∅.
Proof.
  intros Hp. induction 1 as [|self c Hr IH]; [done|].
  apply (gr_no_tables self); [apply grows_perform| |done].
  by rewrite (reachable_protocol p).
Qed.

(** ** The invariant of MESI mode *)

Lemma tables_ok_spec self :
  tables_ok self
  ↔ ∀ tid, tid ∈ dict_keys (caches self) →
           is_Some (coherence_states self !! tid).
Proof. apply Forall_forall. Qed.

Lemma cache_entry_registered self t a :
  is_Some (cache_entry self t a) → t ∈ dict_keys (caches self).
Proof.
  unfold cache_entry. intros [v Hv]. apply dict_get_keys.
  destruct (dict_get (caches self) t); [eauto|done].
Qed.

Lemma other_has_copy_false self thread_id address t :
  other_has_copy self thread_id address = false →
  t ≠ thread_id → cache_entry self t address = None.
Proof.
  unfold other_has_copy, cache_entry. intros Hex Hne.
  destruct (dict_get (caches self) t) as [c|] eqn:Hc; [simpl|done].
  apply dict_get_elem, list_elem_of_In in Hc.
  destruct (c !! address) as [v|] eqn:Hv; [|done].
  assert (existsb (λ '(tid, c), bool_decide (tid ≠ thread_id)
                     && bool_decide (is_Some (c !! address)))
            (caches self) = true) as Htrue; [|congruence].
  apply existsb_exists. exists (t, c). split; [done|].
  rewrite bool_decide_true by done. rewrite bool_decide_true; [done|].
  rewrite Hv. eauto.
Qed.

Lemma coherent_init : coherent (__init__ "MESI").
Proof.
  split.
  - done.
  - apply Forall_nil_2.
  - intros t a. unfold entry, cache_entry. simpl. rewrite lookup_empty.
    split; by intros [? ?].
  - intros t1 t2 a _ _. unfold core_state, entry. simpl.
    by rewrite lookup_empty.
Qed.

Lemma coherent_counted self : coherent self → coherent (counted self).
Proof. intros [H1 H2 H3 H4]. by split. Qed.

Lemma coherent_init_thread_cache self thread_id :
  coherent self → coherent (init_thread_cache thread_id self).2.
Proof.
  intros [Hp Hok Hen Hown]. unfold init_thread_cache. simpl.
  rewrite bool_decide_true by done. simpl.
  assert (Hentry : ∀ t a,
    entry (with_coherence_states (with_caches self (dict_set (caches self) thread_id ∅)) (<[thread_id:=∅]> (coherence_states self))) t a
    = if decide (t = thread_id) then None else entry self t a).
  { intros t a. unfold entry. simpl. rewrite lookup_insert.
    destruct (decide (thread_id = t)) as [->|Hne].
    - by rewrite decide_True.
    - by rewrite decide_False. }
  assert (Hcache : ∀ t a,
    cache_entry (with_coherence_states (with_caches self (dict_set (caches self) thread_id ∅)) (<[thread_id:=∅]> (coherence_states self))) t a
    = if decide (t = thread_id) then None else cache_entry self t a).
  { intros t a. unfold cache_entry. simpl.
    destruct (decide (t = thread_id)) as [->|Hne].
    - by rewrite dict_get_set_eq.
    - by rewrite dict_get_set_ne. }
  split.
  - done.
  - apply tables_ok_spec. intros t. simpl.
    rewrite dict_keys_set, lookup_insert.
    intros [->|Ht]; [by rewrite decide_True|].
    case_decide; [done|]. by apply (tables_ok_spec self).
  - intros t a. rewrite Hentry, Hcache.
    case_decide; [split; by intros [? ?]|]. apply Hen.
  - intros t1 t2 a Hne. unfold core_state. rewrite !Hentry.
    destruct (decide (t1 = thread_id)); [by intros [?|?]|].
    destruct (decide (t2 = thread_id)); [done|]. by apply Hown.
Qed.

Lemma coherent_no_copy self thread_id address t :
  coherent self →
  other_has_copy self thread_id address = false →
  t ≠ thread_id → core_state self t address = Invalid.
Proof.
  intros Hco Hohc Hne. unfold core_state.
  destruct (entry self t address) as [s|] eqn:He; [|done].
  assert (is_Some (cache_entry self t address)) as [v Hv].
  { apply (co_entries _ Hco). rewrite He. eauto. }
  by rewrite (other_has_copy_false self thread_id address t) in Hv.
Qed.

(** The state of another core after an access, in a coherent engine. *)
Lemma mesi_effect_other n thread_id address rd rnd self v self' t :
  coherent self →
  mesi_effect n thread_id address rd rnd self v self' →
  t ≠ thread_id →
  core_state self' t address
  = match others_after
            (is_miss (is_cached self thread_id address)
               (core_state self thread_id address))
            rd (other_has_copy self thread_id address)
            (core_state self thread_id address)
    with
    | Some s => match entry self t address with
                | Some _ => s
                | None => Invalid
                end
    | None => core_state self t address
    end.
Proof.
  intros Hco E Hne. unfold core_state at 1.
  rewrite (me_entry_other _ _ _ _ _ _ _ _ E) by done. cbv zeta.
  destruct (others_after _ _ _ _) as [s|]; [|done].
  destruct (entry self t address) as [s0|] eqn:He.
  - rewrite decide_True; [done|].
    apply (cache_entry_registered self t address), (co_entries _ Hco).
    rewrite He. eauto.
  - by case_decide.
Qed.

Lemma mesi_effect_own n thread_id address rd rnd self v self' :
  mesi_effect n thread_id address rd rnd self v self' →
  core_state self' thread_id address
  = own_after (is_miss (is_cached self thread_id address)
                 (core_state self thread_id address))
      rd (other_has_copy self thread_id address)
      (core_state self thread_id address).
Proof.
  intros E. unfold core_state at 1.
  by rewrite (me_entry_own _ _ _ _ _ _ _ _ E).
Qed.

Lemma mesi_effect_elsewhere n thread_id address rd rnd self v self' t a :
  mesi_effect n thread_id address rd rnd self v self' →
  a ≠ address → core_state self' t a = core_state self t a.
Proof.
  intros E Hne. unfold core_state.
  by rewrite (me_entry_ne _ _ _ _ _ _ _ _ E).
Qed.

Lemma mesi_effect_coherent n thread_id address rd rnd self v self' :
  coherent self →
  mesi_effect n thread_id address rd rnd self v self' →
  coherent self'.
Proof.
  intros Hco E. pose proof Hco as [Hp Hok Hen Hown]. split.
  - by rewrite (me_protocol _ _ _ _ _ _ _ _ E).
  - apply tables_ok_spec. intros t. rewrite (me_keys _ _ _ _ _ _ _ _ E).
    rewrite (me_tables _ _ _ _ _ _ _ _ E). by apply (tables_ok_spec self).
  - intros t a. destruct (decide (a = address)) as [->|Ha].
    + destruct (decide (t = thread_id)) as [->|Ht].
      * rewrite (me_entry_own _ _ _ _ _ _ _ _ E).
        rewrite (me_cache_own _ _ _ _ _ _ _ _ E). split; eauto.
      * rewrite (me_cache_other _ _ _ _ _ _ _ _ E) by done. rewrite <- Hen.
        rewrite (me_entry_other _ _ _ _ _ _ _ _ E) by done. cbv zeta.
        destruct (others_after _ _ _ _); [|done].
        case_decide; [|done]. apply fmap_is_Some.
    + rewrite (me_entry_ne _ _ _ _ _ _ _ _ E) by done.
      destruct (decide (t = thread_id)) as [->|Ht].
      * rewrite (me_cache_ne _ _ _ _ _ _ _ _ E) by done. apply Hen.
      * rewrite (me_cache_other _ _ _ _ _ _ _ _ E) by done. apply Hen.
  - intros t1 t2 a Hne.
    destruct (decide (a = address)) as [->|Ha].
    2: { rewrite !(mesi_effect_elsewhere _ _ _ _ _ _ _ _ _ _ E) by done.
         by apply Hown. }
    pose proof (mesi_effect_own _ _ _ _ _ _ _ _ E) as Hself.
    pose proof (λ t, mesi_effect_other _ _ _ _ _ _ _ _ t Hco E) as Hoth.
    pose proof (λ t, coherent_no_copy self thread_id address t Hco) as Hnone.
    assert (Hmiss : core_state self thread_id address = Invalid →
              is_miss (is_cached self thread_id address)
                (core_state self thread_id address) = true).
    { intros ->. unfold is_miss. by rewrite orb_true_r. }
    destruct (decide (t1 = thread_id)) as [->|H1];
      [|destruct (decide (t2 = thread_id)) as [->|H2]].
    + rewrite Hself, (Hoth t2) by done.
      unfold own_after, others_after.
      destruct (is_miss _ _), rd, (other_has_copy _ _ _);
        repeat case_bool_decide; simpl;
        try (by intros [?|?]);
        try (by destruct (entry self t2 address));
        try (intros; by apply Hnone);
        try (intros; by apply (Hown thread_id)).
    + rewrite Hself, (Hoth t1) by done.
      unfold own_after, others_after.
      destruct (is_miss _ _) eqn:Hm, rd, (other_has_copy _ _ _);
        repeat case_bool_decide; simpl;
        try (by intros [?|?]);
        try (by destruct (entry self t1 address); intros [?|?]);
        try (intros; by apply (Hown t1)).
      intros Hx. rewrite Hnone in Hx by done. by destruct Hx.
    + rewrite (Hoth t1), (Hoth t2) by done.
      unfold others_after.
      destruct (is_miss _ _), rd, (other_has_copy _ _ _);
        repeat case_bool_decide; simpl;
        try (by destruct (entry self t1 address); intros [?|?]);
        try (intros; by apply (Hown t1)).
Qed.

Lemma coherent_access_memory self thread_id address access_type rnd :
  coherent self →
  coherent (access_memory thread_id address access_type rnd self).2.
Proof.
  intros Hco.
  destruct (dict_get (caches self) thread_id) as [c|] eqn:Hc.
  - destruct (proj1 (tables_ok_spec self) (co_tables _ Hco) thread_id)
      as [d Hd].
    { apply dict_get_keys. eauto. }
    destruct (access_memory_mesi thread_id address access_type rnd self c d)
      as (v & self' & -> & E); try done.
    + by rewrite (co_protocol _ Hco).
    + apply (co_tables _ Hco).
    + simpl. by apply (mesi_effect_coherent _ _ _ _ _ _ _ _ Hco E).
  - rewrite access_memory_unregistered by done. simpl.
    by apply coherent_counted.
Qed.

Lemma reachable_coherent self : reachable "MESI" self → coherent self.
Proof.
  induction 1 as [|self c _ IH].
  - apply coherent_init.
  - destruct c; simpl.
    + by apply coherent_init_thread_cache.
    + by apply coherent_access_memory.
Qed.

(** ** The properties of the specification *)

Lemma reachable_run p calls self :
  reachable p self → reachable p (run calls self).
Proof.
  unfold run. revert self.
  induction calls as [|c r IH]; intros self Hr; simpl; [done|].
  apply IH. by constructor.
Qed.

Lemma run_coherent calls : coherent (run calls (__init__ "MESI")).
Proof. apply reachable_coherent, reachable_run. constructor. Qed.

Lemma run_protocol p calls : protocol (run calls (__init__ p)) = p.
Proof. apply reachable_protocol, reachable_run. constructor. Qed.

Lemma other_has_copy_true self thread_id address t :
  is_Some (cache_entry self t address) → t ≠ thread_id →
  other_has_copy self thread_id address = true.
Proof.
  intros [v Hv] Hne.
  destruct (other_has_copy self thread_id address) eqn:Hohc; [done|].
  by rewrite (other_has_copy_false self thread_id address t) in Hv.
Qed.

Lemma coherent_access_returns self thread_id address access_type rnd :
  coherent self → registered self thread_id →
  returns (access_memory thread_id address access_type rnd) self
    (mesi_effect 1 thread_id address (bool_decide (access_type = "read")) rnd
       self).
Proof.
  intros Hco [c Hc].
  destruct (proj1 (tables_ok_spec self) (co_tables _ Hco) thread_id)
    as [d Hd].
  { apply dict_get_keys. eauto. }
  apply (access_memory_mesi _ _ _ _ _ c d); try done.
  - by rewrite (co_protocol _ Hco).
  - apply (co_tables _ Hco).
Qed.

Lemma plain_access_returns self thread_id address access_type rnd :
  protocol self = "none" → registered self thread_id →
  returns (access_memory thread_id address access_type rnd) self
    (plain_effect 1 thread_id address (bool_decide (access_type = "read")) rnd
       self).
Proof. intros Hp [c Hc]. by apply (access_memory_plain _ _ _ _ _ c). Qed.

(** C1: in MESI mode, whatever calls were made on the engine, for every
    address at most one core holds it Modified or Exclusive, and when a core
    holds it Modified every other core's state for it is Invalid. *)
Theorem mesi_single_owner (calls : list call) (address : string) (t1 t2 : Z) :
  let self := run calls (__init__ "MESI") in
  t1 ≠ t2 →
  ¬ (owns self t1 address ∧ owns self t2 address)
  ∧ (core_state self t1 address = Modified →
     core_state self t2 address = Invalid).
Proof.
  intros self Hne. pose proof (run_coherent calls) as Hco. split.
  - intros [H1 H2].
    pose proof (co_owner _ Hco t1 t2 address Hne H1) as Hinv.
    destruct H2 as [H2|H2]; fold self in Hinv; congruence.
  - intros HM. apply (co_owner _ Hco t1 t2 address Hne). by left.
Qed.

Lemma mesi_single_owner_witness :
  0 ≠ 1
  ∧ let self := run [InitThreadCache 0; InitThreadCache 1;
                     AccessMemory 0 "X" "write" 42] (__init__ "MESI") in
    ¬ (owns self 0 "X" ∧ owns self 1 "X")
    ∧ (core_state self 0 "X" = Modified → core_state self 1 "X" = Invalid).
Proof.
  split; [lia|].
  apply (mesi_single_owner
           [InitThreadCache 0; InitThreadCache 1;
            AccessMemory 0 "X" "write" 42] "X" 0 1).
  lia.
Defined.

(** Against C2 as stated: after core 0 and then core 1 write ["X"], core 0
    is Invalid for ["X"] and its cache still has an entry for it. *)
Lemma invalidated_core_keeps_cache_entry :
  ¬ (∀ calls t a,
       let self := run calls (__init__ "MESI") in
       registered self t →
       (is_Some (cache_entry self t a) ↔ core_state self t a ≠ Invalid)).
Proof.
  intros H.
  specialize (H [InitThreadCache 0; InitThreadCache 1;
                 AccessMemory 0 "X" "write" 42;
                 AccessMemory 1 "X" "write" 7] 0 "X").
  cbv zeta in H. destruct H as [H _].
  - by eexists.
  - apply H; [|by vm_compute]. by eexists.
Qed.

(** C2, amended: in MESI mode a core whose state for an address is not
    Invalid has a cache entry for it, and a cache entry exists exactly when
    the state table has a record for the address (whatever state it holds).
    An invalidated core keeps its entry, and the entry is not used while the
    state is Invalid: an access by a registered core whose state for the
    address is Invalid returns, counts a miss, refills the entry with the
    value returned (for a read, what the shared store holds, 0 when it holds
    nothing) and leaves the state not Invalid. *)
Theorem mesi_valid_state_is_cached
    (calls : list call) (t : Z) (a access_type : string) (rnd : Z) :
  let self := run calls (__init__ "MESI") in
  (core_state self t a ≠ Invalid → is_Some (cache_entry self t a))
  ∧ (is_Some (cache_entry self t a) ↔ is_Some (entry self t a))
  ∧ (registered self t →
     core_state self t a = Invalid →
     ∃ v self',
       access_memory t a access_type rnd self = (Ret v, self')
       ∧ cache_misses (metrics self') = cache_misses (metrics self) + 1
       ∧ (access_type = "read" →
          v = default 0 (shared_memory self !! a))
       ∧ cache_entry self' t a = Some v
       ∧ core_state self' t a ≠ Invalid).
Proof.
  intros self. pose proof (run_coherent calls) as Hco. fold self in Hco.
  split; [|split].
  - intros Hst. apply (co_entries _ Hco). unfold core_state in Hst.
    destruct (entry self t a); [eauto|done].
  - symmetry. apply (co_entries _ Hco).
  - intros Hreg Hinv.
    destruct (coherent_access_returns self t a access_type rnd Hco Hreg)
      as (v & self' & Hrun & E).
    assert (is_miss (is_cached self t a) (core_state self t a) = true)
      as Hmiss.
    { unfold is_miss. rewrite Hinv. by rewrite orb_true_r. }
    pose proof (me_misses _ _ _ _ _ _ _ _ E) as Hm.
    pose proof (me_value _ _ _ _ _ _ _ _ E) as Hv.
    pose proof (mesi_effect_own _ _ _ _ _ _ _ _ E) as Ho.
    cbv zeta in Hm, Hv. rewrite Hmiss in Hm, Hv, Ho.
    exists v, self'. split; [done|]. split; [done|]. split; [|split].
    + intros Hrd. by rewrite bool_decide_true in Hv.
    + apply (me_cache_own _ _ _ _ _ _ _ _ E).
    + rewrite Ho. unfold own_after.
      by destruct (bool_decide (access_type = "read")),
           (other_has_copy self t a).
Qed.

Lemma mesi_valid_state_is_cached_witness :
  let self := run [InitThreadCache 0; InitThreadCache 1;
                   AccessMemory 0 "X" "write" 42;
                   AccessMemory 1 "X" "write" 7] (__init__ "MESI") in
  (core_state self 1 "X" ≠ Invalid
   ∧ registered self 0
   ∧ core_state self 0 "X" = Invalid
   ∧ cache_entry self 0 "X" = Some 42)
  ∧ is_Some (cache_entry self 1 "X")
  ∧ ∃ v self',
      access_memory 0 "X" "read" 5 self = (Ret v, self')
      ∧ cache_misses (metrics self') = cache_misses (metrics self) + 1
      ∧ ("read" = "read" → v = default 0 (shared_memory self !! "X"))
      ∧ cache_entry self' 0 "X" = Some v
      ∧ core_state self' 0 "X" ≠ Invalid.
Proof.
  set (calls := [InitThreadCache 0; InitThreadCache 1;
                 AccessMemory 0 "X" "write" 42;
                 AccessMemory 1 "X" "write" 7]).
  assert (core_state (run calls (__init__ "MESI")) 1 "X" ≠ Invalid) as Hst
    by (by vm_compute).
  assert (registered (run calls (__init__ "MESI")) 0) as Hreg
    by (by eexists).
  assert (core_state (run calls (__init__ "MESI")) 0 "X" = Invalid) as Hinv
    by reflexivity.
  split; [split; [exact Hst|]; split; [exact Hreg|]; split;
          [exact Hinv|reflexivity]|].
  destruct (mesi_valid_state_is_cached calls 1 "X" "read" 5)
    as (Hcached & _ & _).
  destruct (mesi_valid_state_is_cached calls 0 "X" "read" 5)
    as (_ & _ & Hacc).
  split; [exact (Hcached Hst)|exact (Hacc Hreg Hinv)].
Defined.

(** C8: over any sequence of calls, from any state of an engine in either
    mode, none of the three counters decreases; with a single call this is
    the comparison before and after that call. *)
Theorem metrics_monotone (self : CacheSimulator) (calls : list call) :
  (cache_misses (metrics self) ≤ cache_misses (metrics (run calls self)))%Z
  ∧ (coherence_messages (metrics self)
     ≤ coherence_messages (metrics (run calls self)))%Z
  ∧ (memory_accesses (metrics self)
     ≤ memory_accesses (metrics (run calls self)))%Z.
Proof. destruct (grows_run calls self). auto. Qed.

(** C10: in MESI mode an access by a registered core returns, and right
    after it the requester's state for the address is not Invalid and its
    cache entry for the address is the value returned. *)
Theorem mesi_requester_holds_line
    (calls : list call) (thread_id : Z) (address access_type : string)
    (rnd : Z) :
  let self := run calls (__init__ "MESI") in
  registered self thread_id →
  ∃ v self',
    access_memory thread_id address access_type rnd self = (Ret v, self')
    ∧ core_state self' thread_id address ≠ Invalid
    ∧ cache_entry self' thread_id address = Some v.
Proof.
  intros self Hreg.
  destruct (coherent_access_returns self thread_id address access_type rnd)
    as (v & self' & Hrun & E); [apply run_coherent|done|].
  exists v, self'. split; [done|]. split.
  - rewrite (mesi_effect_own _ _ _ _ _ _ _ _ E). unfold own_after, is_miss.
    destruct (bool_decide (access_type = "read")),
      (is_cached self thread_id address),
      (other_has_copy self thread_id address);
      simpl; repeat case_bool_decide; congruence.
  - apply (me_cache_own _ _ _ _ _ _ _ _ E).
Qed.

Lemma mesi_requester_holds_line_witness :
  let self := run [InitThreadCache 0] (__init__ "MESI") in
  registered self 0
  ∧ ∃ v self',
      access_memory 0 "X" "read" 5 self = (Ret v, self')
      ∧ core_state self' 0 "X" ≠ Invalid
      ∧ cache_entry self' 0 "X" = Some v.
Proof.
  assert (registered (run [InitThreadCache 0] (__init__ "MESI")) 0) as Hreg.
  { by eexists. }
  split; [exact Hreg|].
  exact (mesi_requester_holds_line [InitThreadCache 0] 0 "X" "read" 5 Hreg).
Defined.

(** A registered core's access returns, in either mode. *)
Lemma run_access_returns p calls thread_id address access_type rnd :
  p = "none" ∨ p = "MESI" →
  let self := run calls (__init__ p) in
  registered self thread_id →
  let rd := bool_decide (access_type = "read") in
  returns (access_memory thread_id address access_type rnd) self
    (λ v self',
       plain_effect 1 thread_id address rd rnd self v self'
       ∨ mesi_effect 1 thread_id address rd rnd self v self').
Proof.
  intros [->| ->] self Hreg rd.
  - destruct (plain_access_returns self thread_id address access_type rnd)
      as (v & self' & Hrun & E); [apply run_protocol|done|].
    exists v, self'. auto.
  - destruct (coherent_access_returns self thread_id address access_type rnd)
      as (v & self' & Hrun & E); [apply run_coherent|done|].
    exists v, self'. auto.
Qed.

(** C5: in both modes, the access of a registered core to an address that
    is in no cache and not in the shared store returns and adds exactly one
    to the miss counter, whatever the access type. *)
Theorem first_access_misses
    (p : string) (calls : list call) (thread_id : Z)
    (address access_type : string) (rnd : Z) :
  let self := run calls (__init__ p) in
  p = "none" ∨ p = "MESI" →
  registered self thread_id →
  (∀ t, cache_entry self t address = None) →
  shared_memory self !! address = None →
  ∃ v self',
    access_memory thread_id address access_type rnd self = (Ret v, self')
    ∧ cache_misses (metrics self') = cache_misses (metrics self) + 1.
Proof.
  intros self Hp Hreg Hfresh _.
  destruct (run_access_returns p calls thread_id address access_type rnd
              Hp Hreg) as (v & self' & Hrun & [E|E]);
    exists v, self'; (split; [done|]).
  - rewrite (pe_misses _ _ _ _ _ _ _ _ E).
    unfold is_cached. fold self. by rewrite Hfresh.
  - rewrite (me_misses _ _ _ _ _ _ _ _ E). cbv zeta.
    unfold is_miss, is_cached. fold self. by rewrite Hfresh.
Qed.

Lemma first_access_misses_witness :
  let self := run [InitThreadCache 0; InitThreadCache 1] (__init__ "MESI") in
  ("MESI" = "none" ∨ "MESI" = "MESI")
  ∧ registered self 1
  ∧ (∀ t, cache_entry self t "A" = None)
  ∧ shared_memory self !! "A" = None
  ∧ ∃ v self',
      access_memory 1 "A" "read" 3 self = (Ret v, self')
      ∧ cache_misses (metrics self') = cache_misses (metrics self) + 1.
Proof.
  assert (∀ t, cache_entry
                 (run [InitThreadCache 0; InitThreadCache 1]
                    (__init__ "MESI")) t "A" = None) as Hfresh.
  { intros t. unfold cache_entry. simpl.
    repeat case_decide; reflexivity. }
  assert (registered
            (run [InitThreadCache 0; InitThreadCache 1] (__init__ "MESI")) 1)
    as Hreg by (by eexists).
  split; [by right|]. split; [exact Hreg|]. split; [exact Hfresh|].
  split; [reflexivity|].
  exact (first_access_misses "MESI" [InitThreadCache 0; InitThreadCache 1]
           1 "A" "read" 3 (or_intror eq_refl) Hreg Hfresh eq_refl).
Defined.

(** C7: in both modes, a write by a registered core returns the number the
    generator handed out, whatever the state was, and leaves it both in the
    requester's cache and in the shared store. *)
Theorem write_is_written_through
    (p : string) (calls : list call) (thread_id : Z) (address : string)
    (rnd : Z) :
  let self := run calls (__init__ p) in
  p = "none" ∨ p = "MESI" →
  registered self thread_id →
  ∃ self',
    access_memory thread_id address "write" rnd self = (Ret rnd, self')
    ∧ cache_entry self' thread_id address = Some rnd
    ∧ shared_memory self' !! address = Some rnd.
Proof.
  intros self Hp Hreg.
  destruct (run_access_returns p calls thread_id address "write" rnd
              Hp Hreg) as (v & self' & Hrun & [E|E]); exists self'.
  - pose proof (pe_value _ _ _ _ _ _ _ _ E) as Hv. simpl in Hv. subst v.
    split; [done|]. split.
    + apply (pe_cache_own _ _ _ _ _ _ _ _ E).
    + apply (pe_shared _ _ _ _ _ _ _ _ E).
  - pose proof (me_value _ _ _ _ _ _ _ _ E) as Hv. simpl in Hv. subst v.
    split; [done|]. split.
    + apply (me_cache_own _ _ _ _ _ _ _ _ E).
    + apply (me_shared _ _ _ _ _ _ _ _ E).
Qed.

Lemma write_is_written_through_witness :
  let self := run [InitThreadCache 0] (__init__ "none") in
  ("none" = "none" ∨ "none" = "MESI")
  ∧ registered self 0
  ∧ ∃ self',
      access_memory 0 "B" "write" 17 self = (Ret 17, self')
      ∧ cache_entry self' 0 "B" = Some 17
      ∧ shared_memory self' !! "B" = Some 17.
Proof.
  assert (registered (run [InitThreadCache 0] (__init__ "none")) 0) as Hreg
    by (by eexists).
  split; [by left|]. split; [exact Hreg|].
  exact (write_is_written_through "none" [InitThreadCache 0] 0 "B" 17
           (or_introl eq_refl) Hreg).
Defined.

(** C6: without coherence, when [B] has [X] cached and another registered
    core [A] writes [X], the following read of [X] by [B] is a hit (no miss
    counted) that returns [B]'s cached value, while the shared store holds
    the value [A] wrote. *)
Theorem stale_read_without_coherence
    (self : CacheSimulator) (A B : Z) (X : string) (old rndA rndB : Z) :
  protocol self = "none" →
  A ≠ B →
  registered self A →
  cache_entry self B X = Some old →
  ∃ s1 s2,
    access_memory A X "write" rndA self = (Ret rndA, s1)
    ∧ shared_memory s1 !! X = Some rndA
    ∧ access_memory B X "read" rndB s1 = (Ret old, s2)
    ∧ cache_misses (metrics s2) = cache_misses (metrics s1)
    ∧ shared_memory s2 !! X = Some rndA.
Proof.
  intros Hp Hne HregA HB.
  destruct (plain_access_returns self A X "write" rndA Hp HregA)
    as (v1 & s1 & Hrun1 & E1).
  pose proof (pe_value _ _ _ _ _ _ _ _ E1) as Hv1. simpl in Hv1. subst v1.
  assert (cache_entry s1 B X = Some old) as HB1.
  { by rewrite (pe_cache_other _ _ _ _ _ _ _ _ E1). }
  assert (registered s1 B) as HregB.
  { unfold registered. unfold cache_entry in HB1.
    destruct (dict_get (caches s1) B); [eauto|done]. }
  destruct (plain_access_returns s1 B X "read" rndB) as (v2 & s2 & Hrun2 & E2);
    [by rewrite (pe_protocol _ _ _ _ _ _ _ _ E1)|done|].
  assert (is_cached s1 B X = true) as Hc.
  { unfold is_cached. rewrite HB1. by apply bool_decide_eq_true. }
  pose proof (pe_value _ _ _ _ _ _ _ _ E2) as Hv2.
  rewrite Hc, HB1 in Hv2. simpl in Hv2. subst v2.
  exists s1, s2. split; [done|]. split.
  { apply (pe_shared _ _ _ _ _ _ _ _ E1). }
  split; [done|]. split.
  - rewrite (pe_misses _ _ _ _ _ _ _ _ E2), Hc. lia.
  - rewrite (pe_shared _ _ _ _ _ _ _ _ E2), Hc. simpl.
    apply (pe_shared _ _ _ _ _ _ _ _ E1).
Qed.

Lemma stale_read_without_coherence_witness :
  let self := run [InitThreadCache 0; InitThreadCache 1;
                   AccessMemory 1 "X" "write" 11] (__init__ "none") in
  protocol self = "none"
  ∧ 0 ≠ 1
  ∧ registered self 0
  ∧ cache_entry self 1 "X" = Some 11
  ∧ ∃ s1 s2,
      access_memory 0 "X" "write" 22 self = (Ret 22, s1)
      ∧ shared_memory s1 !! "X" = Some 22
      ∧ access_memory 1 "X" "read" 33 s1 = (Ret 11, s2)
      ∧ cache_misses (metrics s2) = cache_misses (metrics s1)
      ∧ shared_memory s2 !! "X" = Some 22.
Proof.
  assert (registered
            (run [InitThreadCache 0; InitThreadCache 1;
                  AccessMemory 1 "X" "write" 11] (__init__ "none")) 0)
    as Hreg by (by eexists).
  assert (0 ≠ 1) as Hne by lia.
  split; [reflexivity|]. split; [exact Hne|]. split; [exact Hreg|].
  split; [reflexivity|].
  exact (stale_read_without_coherence
           (run [InitThreadCache 0; InitThreadCache 1;
                 AccessMemory 1 "X" "write" 11] (__init__ "none"))
           0 1 "X" 11 22 33 eq_refl Hne Hreg eq_refl).
Defined.

Lemma tables_ok_registered self thread_id :
  tables_ok self → registered self thread_id →
  is_Some (coherence_states self !! thread_id).
Proof.
  intros Hok Hreg. apply (tables_ok_spec self); [done|].
  by apply dict_get_keys.
Qed.




(** C4: on a miss in MESI mode the fan-out follows the state table, not
    the caches. A read miss that finds another cached copy leaves the
    requester Shared and turns exactly the recorded entries of the other
    registered cores into Shared; a write miss leaves the requester Modified
    and turns exactly the recorded entries of the others into Invalid. Cores
    with no record for the address get none, and nothing depends on what
    their caches hold. *)
Theorem fan_out_follows_state_table
    (self : CacheSimulator) (thread_id : Z) (address access_type : string)
    (rnd : Z) :
  protocol self = "MESI" →
  tables_ok self →
  registered self thread_id →
  is_miss (is_cached self thread_id address)
          (core_state self thread_id address) = true →
  ∃ v self',
    access_memory thread_id address access_type rnd self = (Ret v, self')
    ∧ (access_type = "read" →
       other_has_copy self thread_id address = true →
       entry self' thread_id address = Some Shared
       ∧ ∀ t, t ∈ dict_keys (caches self) → t ≠ thread_id →
           entry self' t address
           = match entry self t address with
             | Some _ => Some Shared
             | None => None
             end)
    ∧ (access_type ≠ "read" →
       entry self' thread_id address = Some Modified
       ∧ ∀ t, t ∈ dict_keys (caches self) → t ≠ thread_id →
           entry self' t address
           = match entry self t address with
             | Some _ => Some Invalid
             | None => None
             end).
Proof.
  intros Hp Hok [c Hc] Hmiss.
  destruct (tables_ok_registered self thread_id Hok) as [d Hd]; [by eexists|].
  destruct (access_memory_mesi thread_id address access_type rnd self c d)
    as (v & self' & Hrun & E); try done.
  { by rewrite Hp. }
  exists v, self'. split; [done|].
  pose proof (me_entry_own _ _ _ _ _ _ _ _ E) as Hown.
  pose proof (me_entry_other _ _ _ _ _ _ _ _ E) as Hoth.
  cbv zeta in Hown, Hoth. rewrite Hmiss in Hown, Hoth.
  unfold own_after, others_after in Hown, Hoth. split.
  - intros Hrd Hohc. rewrite bool_decide_true in Hown, Hoth by done.
    rewrite Hohc in Hown, Hoth. simpl in Hoth. split; [done|].
    intros t Ht Hne. rewrite Hoth, decide_True by done.
    by destruct (entry self t address).
  - intros Hrd. rewrite bool_decide_false in Hown, Hoth by done.
    simpl in Hoth. split; [done|].
    intros t Ht Hne. rewrite Hoth, decide_True by done.
    by destruct (entry self t address).
Qed.

Lemma fan_out_follows_state_table_witness :
  let self := run [InitThreadCache 0; InitThreadCache 1; InitThreadCache 2;
                   AccessMemory 0 "X" "write" 42;
                   AccessMemory 1 "X" "write" 7] (__init__ "MESI") in
  (protocol self = "MESI"
   ∧ tables_ok self
   ∧ registered self 2
   ∧ is_miss (is_cached self 2 "X") (core_state self 2 "X") = true)
  ∧ ∃ v self',
      access_memory 2 "X" "read" 0 self = (Ret v, self')
      ∧ ("read" = "read" →
         other_has_copy self 2 "X" = true →
         entry self' 2 "X" = Some Shared
         ∧ ∀ t, t ∈ dict_keys (caches self) → t ≠ 2 →
             entry self' t "X"
             = match entry self t "X" with
               | Some _ => Some Shared
               | None => None
               end)
      ∧ ("read" ≠ "read" →
         entry self' 2 "X" = Some Modified
         ∧ ∀ t, t ∈ dict_keys (caches self) → t ≠ 2 →
             entry self' t "X"
             = match entry self t "X" with
               | Some _ => Some Invalid
               | None => None
               end).
Proof.
  set (calls := [InitThreadCache 0; InitThreadCache 1; InitThreadCache 2;
                 AccessMemory 0 "X" "write" 42;
                 AccessMemory 1 "X" "write" 7]).
  assert (tables_ok (run calls (__init__ "MESI"))) as Hok.
  { apply (co_tables _ (run_coherent calls)). }
  assert (registered (run calls (__init__ "MESI")) 2) as Hreg
    by (by eexists).
  split; [split; [reflexivity|]; split; [exact Hok|]; split;
          [exact Hreg|reflexivity]|].
  exact (fan_out_follows_state_table (run calls (__init__ "MESI")) 2 "X"
           "read" 0 eq_refl Hok Hreg eq_refl).
Defined.

(** What the fan-out over table entries leads to: core 0, invalidated by
    core 1's write and still holding the old value, is set back to Shared by
    core 2's read miss while the shared store holds the new value. *)
Example invalidated_core_marked_shared :
  let self := run [InitThreadCache 0; InitThreadCache 1; InitThreadCache 2;
                   AccessMemory 0 "X" "write" 42;
                   AccessMemory 1 "X" "write" 7;
                   AccessMemory 2 "X" "read" 0] (__init__ "MESI") in
  core_state self 0 "X" = Shared
  ∧ cache_entry self 0 "X" = Some 42
  ∧ shared_memory self !! "X" = Some 7.
Proof. by vm_compute. Qed.

Lemma mesi_effect_registered n thread_id address rd rnd self v self' t :
  mesi_effect n thread_id address rd rnd self v self' →
  registered self t → registered self' t.
Proof.
  intros E Hreg. unfold registered in *.
  rewrite dict_get_keys in *. by rewrite (me_keys _ _ _ _ _ _ _ _ E).
Qed.

(** C3: the end-to-end scenario on a fresh MESI engine with cores 0 and 1.
    Core 0 writes [X]: a miss, state Modified, two messages. Core 1 reads
    [X]: a miss, both cores Shared, two messages, and the value read is the
    one core 0 wrote. Core 1 writes [X]: no miss, core 1 Modified, core 0
    Invalid, one message, and the generated value is in core 1's cache and in
    the shared store. *)
Theorem end_to_end_scenario (X : string) (r1 r2 r3 : Z) :
  let s0 := run [InitThreadCache 0; InitThreadCache 1] (__init__ "MESI") in
  ∃ s1 s2 s3,
    access_memory 0 X "write" r1 s0 = (Ret r1, s1)
    ∧ cache_misses (metrics s1) = cache_misses (metrics s0) + 1
    ∧ core_state s1 0 X = Modified
    ∧ coherence_messages (metrics s1) = coherence_messages (metrics s0) + 2
    ∧ shared_memory s1 !! X = Some r1
    ∧ access_memory 1 X "read" r2 s1 = (Ret r1, s2)
    ∧ cache_misses (metrics s2) = cache_misses (metrics s1) + 1
    ∧ core_state s2 1 X = Shared
    ∧ core_state s2 0 X = Shared
    ∧ coherence_messages (metrics s2) = coherence_messages (metrics s1) + 2
    ∧ access_memory 1 X "write" r3 s2 = (Ret r3, s3)
    ∧ cache_misses (metrics s3) = cache_misses (metrics s2)
    ∧ core_state s3 1 X = Modified
    ∧ core_state s3 0 X = Invalid
    ∧ coherence_messages (metrics s3) = coherence_messages (metrics s2) + 1
    ∧ cache_entry s3 1 X = Some r3
    ∧ shared_memory s3 !! X = Some r3.
Proof.
  intros s0.
  pose proof (run_coherent [InitThreadCache 0; InitThreadCache 1]) as Hco0.
  fold s0 in Hco0.
  assert (Hreg0 : ∀ t, t = 0 ∨ t = 1 → registered s0 t).
  { intros t [-> | ->]; by eexists. }
  assert (Hfresh : ∀ t, cache_entry s0 t X = None).
  { intros t. unfold cache_entry. simpl. repeat case_decide; reflexivity. }
  (* core 0 writes X *)
  destruct (coherent_access_returns s0 0 X "write" r1 Hco0)
    as (v1 & s1 & Hrun1 & E1); [auto|].
  pose proof (mesi_effect_coherent _ _ _ _ _ _ _ _ Hco0 E1) as Hco1.
  assert (Hmiss0 : is_miss (is_cached s0 0 X) (core_state s0 0 X) = true).
  { unfold is_miss, is_cached. by rewrite Hfresh. }
  assert (Hst0 : core_state s0 0 X = Invalid).
  { unfold core_state.
    destruct (entry s0 0 X) eqn:He; [|done].
    assert (is_Some (cache_entry s0 0 X)) as [? Hc]
      by (apply (co_entries _ Hco0); rewrite He; eauto).
    by rewrite Hfresh in Hc. }
  pose proof (me_value _ _ _ _ _ _ _ _ E1) as Hv1. simpl in Hv1. subst v1.
  pose proof (me_misses _ _ _ _ _ _ _ _ E1) as Hm1.
  pose proof (mesi_effect_own _ _ _ _ _ _ _ _ E1) as Ho1.
  pose proof (me_messages _ _ _ _ _ _ _ _ E1) as Hg1.
  pose proof (me_shared _ _ _ _ _ _ _ _ E1) as Hs1.
  cbv zeta in Hm1, Hg1. rewrite Hmiss0 in Hm1, Ho1, Hg1.
  rewrite Hst0 in Hg1. simpl in Ho1, Hg1, Hs1.
  (* core 1 reads X *)
  destruct (coherent_access_returns s1 1 X "read" r2 Hco1)
    as (v2 & s2 & Hrun2 & E2).
  { apply (mesi_effect_registered _ _ _ _ _ _ _ _ 1 E1). auto. }
  pose proof (mesi_effect_coherent _ _ _ _ _ _ _ _ Hco1 E2) as Hco2.
  assert (Hc1 : cache_entry s1 1 X = None).
  { by rewrite (me_cache_other _ _ _ _ _ _ _ _ E1). }
  assert (Hmiss1 : is_miss (is_cached s1 1 X) (core_state s1 1 X) = true).
  { unfold is_miss, is_cached. by rewrite Hc1. }
  assert (Hohc1 : other_has_copy s1 1 X = true).
  { apply (other_has_copy_true s1 1 X 0); [|done].
    rewrite (me_cache_own _ _ _ _ _ _ _ _ E1). eauto. }
  pose proof (me_value _ _ _ _ _ _ _ _ E2) as Hv2.
  pose proof (me_misses _ _ _ _ _ _ _ _ E2) as Hm2.
  pose proof (mesi_effect_own _ _ _ _ _ _ _ _ E2) as Ho2.
  pose proof (mesi_effect_other _ _ _ _ _ _ _ _ 0 Hco1 E2) as Hx2.
  pose proof (me_messages _ _ _ _ _ _ _ _ E2) as Hg2.
  pose proof (me_shared _ _ _ _ _ _ _ _ E2) as Hs2.
  cbv zeta in Hv2, Hm2, Hg2, Hs2.
  rewrite Hmiss1 in Hv2, Hm2, Ho2, Hx2, Hg2, Hs2.
  rewrite Hohc1 in Ho2, Hx2, Hg2.
  rewrite Hs1 in Hv2, Hs2. simpl in Hv2, Ho2, Hx2, Hg2, Hs2. subst v2.
  rewrite (me_entry_own _ _ _ _ _ _ _ _ E1) in Hx2.
  specialize (Hx2 ltac:(done)).
  (* core 1 writes X *)
  destruct (coherent_access_returns s2 1 X "write" r3 Hco2)
    as (v3 & s3 & Hrun3 & E3).
  { apply (mesi_effect_registered _ _ _ _ _ _ _ _ 1 E2).
    apply (mesi_effect_registered _ _ _ _ _ _ _ _ 1 E1). auto. }
  assert (Hhit2 : is_miss (is_cached s2 1 X) (core_state s2 1 X) = false).
  { unfold is_miss, is_cached.
    by rewrite (me_cache_own _ _ _ _ _ _ _ _ E2), Ho2. }
  pose proof (me_value _ _ _ _ _ _ _ _ E3) as Hv3. simpl in Hv3. subst v3.
  pose proof (me_misses _ _ _ _ _ _ _ _ E3) as Hm3.
  pose proof (mesi_effect_own _ _ _ _ _ _ _ _ E3) as Ho3.
  pose proof (mesi_effect_other _ _ _ _ _ _ _ _ 0 Hco2 E3) as Hx3.
  pose proof (me_messages _ _ _ _ _ _ _ _ E3) as Hg3.
  cbv zeta in Hm3, Hg3.
  rewrite Hhit2 in Hm3, Ho3, Hx3, Hg3. rewrite Ho2 in Ho3, Hx3, Hg3.
  simpl in Ho3, Hx3, Hg3. specialize (Hx3 ltac:(done)).
  exists s1, s2, s3.
  repeat split; try done; try lia.
  - by destruct (entry s2 0 X).
  - apply (me_cache_own _ _ _ _ _ _ _ _ E3).
  - apply (me_shared _ _ _ _ _ _ _ _ E3).
Qed.

(** ** Further properties of the code *)

(** ** Engines of every protocol *)

(** An engine is in one of three situations, by the protocol it was built
    with. *)
Lemma reachable_cases p self :
  reachable p self →
  (p = "none" ∧ protocol self = "none")
  ∨ (p = "MESI" ∧ coherent self)
  ∨ (p ≠ "none" ∧ p ≠ "MESI" ∧ protocol self = p
     ∧ coherence_states self = ∅).
Proof.
  intros Hr. pose proof (reachable_protocol p self Hr) as Hp.
  destruct (decide (p = "none")) as [->|Hn]; [by left|].
  destruct (decide (p = "MESI")) as [->|Hm].
  - right. left. split; [done|]. by apply reachable_coherent.
  - right. right. repeat split; try done. by apply (reachable_no_tables p).
Qed.

(** What one [access_memory] call does on an engine: it raises [KeyError]
    with only the access counted, or returns with one of the two effects. *)
Lemma access_memory_outcome p self thread_id address access_type rnd :
  reachable p self →
  access_memory thread_id address access_type rnd self
  = (Raise KeyError, counted self)
  ∨ returns (access_memory thread_id address access_type rnd) self
      (λ v self',
         (protocol self = "none"
          ∧ plain_effect 1 thread_id address
              (bool_decide (access_type = "read")) rnd self v self')
         ∨ (coherent self
            ∧ mesi_effect 1 thread_id address
                (bool_decide (access_type = "read")) rnd self v self')).
Proof.
  intros Hr.
  destruct (dict_get (caches self) thread_id) as [c|] eqn:Hc.
  2: { left. by apply access_memory_unregistered. }
  destruct (reachable_cases p self Hr)
    as [[-> Hp]|[[-> Hco]|(Hn & Hm & Hp & He)]].
  - right.
    destruct (plain_access_returns self thread_id address access_type rnd)
      as (v & self' & Hrun & E); [done|by eexists|].
    exists v, self'. auto.
  - right.
    destruct (coherent_access_returns self thread_id address access_type rnd)
      as (v & self' & Hrun & E); [done|by eexists|].
    exists v, self'. auto.
  - left. apply access_memory_no_table; [congruence|].
    rewrite He. apply lookup_empty.
Qed.

(** In a coherent engine a missing line is never recorded as Shared. *)
Lemma coherent_shared_is_hit self thread_id address :
  coherent self →
  core_state self thread_id address = Shared →
  is_miss (is_cached self thread_id address)
          (core_state self thread_id address) = false.
Proof.
  intros Hco Hst. unfold is_miss, is_cached. rewrite Hst.
  rewrite bool_decide_true; [done|].
  apply (co_entries _ Hco). unfold core_state in Hst.
  destruct (entry self thread_id address); [eauto|done].
Qed.

Lemma coherent_messages_bound self thread_id address rd :
  coherent self →
  let st := core_state self thread_id address in
  let miss := is_miss (is_cached self thread_id address) st in
  (0 ≤ messages miss rd (other_has_copy self thread_id address) st
     ≤ (if miss then 1 else 0) + 1)%Z.
Proof.
  intros Hco. cbv zeta. unfold messages.
  destruct (decide (core_state self thread_id address = Shared)) as [Hs|Hs].
  - rewrite (coherent_shared_is_hit self thread_id address Hco Hs).
    destruct rd; simpl; try case_bool_decide; lia.
  - rewrite (bool_decide_false (_ = Shared)) by done.
    rewrite andb_false_r.
    destruct (is_miss _ _), rd, (other_has_copy self thread_id address); lia.
Qed.

Lemma access_memory_counts p self thread_id address access_type rnd :
  reachable p self →
  counts_one 1 self (access_memory thread_id address access_type rnd self).2.
Proof.
  intros Hr.
  destruct (access_memory_outcome p self thread_id address access_type rnd Hr)
    as [->|(v & self' & -> & [[Hp E]|[Hco E]])]; simpl.
  - split; simpl; lia.
  - split.
    + apply (pe_accesses _ _ _ _ _ _ _ _ E).
    + rewrite (pe_misses _ _ _ _ _ _ _ _ E).
      destruct (is_cached self thread_id address); lia.
    + rewrite (pe_messages _ _ _ _ _ _ _ _ E), (pe_misses _ _ _ _ _ _ _ _ E).
      destruct (is_cached self thread_id address); lia.
  - pose proof (coherent_messages_bound self thread_id address
                  (bool_decide (access_type = "read")) Hco) as Hb.
    cbv zeta in Hb. split.
    + apply (me_accesses _ _ _ _ _ _ _ _ E).
    + rewrite (me_misses _ _ _ _ _ _ _ _ E). cbv zeta.
      destruct (is_miss _ _); lia.
    + rewrite (me_messages _ _ _ _ _ _ _ _ E), (me_misses _ _ _ _ _ _ _ _ E).
      cbv zeta. destruct (is_miss _ _); lia.
Qed.

Lemma init_thread_cache_counts thread_id self :
  counts_one 0 self (init_thread_cache thread_id self).2.
Proof.
  unfold init_thread_cache. simpl. case_bool_decide; split; simpl; lia.
Qed.

(** X1: [memory_accesses] is the number of [access_memory] calls made on
    the engine, those that raised included, whatever protocol it was built
    with. *)
Theorem accesses_count_calls (p : string) (calls : list call) :
  memory_accesses (metrics (run calls (__init__ p))) = access_calls calls.
Proof.
  assert (∀ calls self, reachable p self →
            memory_accesses (metrics (run calls self))
            = memory_accesses (metrics self) + access_calls calls) as Hgen.
  { clear calls. unfold run.
    induction calls as [|c r IH]; intros self Hr; simpl; [lia|].
    rewrite IH by (by constructor).
    destruct c as [t|t a k rnd]; simpl.
    - rewrite (cnt_accesses _ _ _ (init_thread_cache_counts t self)). lia.
    - rewrite (cnt_accesses _ _ _
                 (access_memory_counts p self t a k rnd Hr)). lia. }
  rewrite Hgen by constructor. simpl. lia.
Qed.

(** X2: on every engine the misses never exceed the accesses, and the
    coherence messages never exceed the misses plus the accesses (a miss
    charges at most two messages, a hit at most one). *)
Theorem metrics_bounds (p : string) (calls : list call) :
  let m := metrics (run calls (__init__ p)) in
  (0 ≤ cache_misses m ≤ memory_accesses m)%Z
  ∧ (0 ≤ coherence_messages m ≤ cache_misses m + memory_accesses m)%Z.
Proof.
  assert (∀ self, reachable p self →
            (0 ≤ cache_misses (metrics self) ≤ memory_accesses (metrics self))%Z
            ∧ (0 ≤ coherence_messages (metrics self)
               ≤ cache_misses (metrics self)
                 + memory_accesses (metrics self))%Z) as Hgen.
  { induction 1 as [|self c Hr IH]; [simpl; lia|].
    destruct c as [t|t a k rnd]; simpl.
    - destruct (init_thread_cache_counts t self). lia.
    - destruct (access_memory_counts p self t a k rnd Hr). lia. }
  apply Hgen, reachable_run. constructor.
Qed.

(** X3: an engine built with ['none'] never charges a coherence message and
    never creates a coherence-state table. *)
Theorem none_mode_has_no_coherence_state (calls : list call) :
  let self := run calls (__init__ "none") in
  coherence_messages (metrics self) = 0 ∧ coherence_states self = ∅.
Proof.
  assert (∀ self, reachable "none" self →
            coherence_messages (metrics self) = 0
            ∧ coherence_states self = ∅) as Hgen.
  { induction 1 as [|self c Hr [IHm IHs]]; [done|].
    split; [|by apply (reachable_no_tables "none"); [|constructor]].
    destruct c as [t|t a k rnd]; simpl.
    - unfold init_thread_cache. simpl.
      by rewrite bool_decide_false
        by (rewrite (reachable_protocol "none" self Hr); done).
    - destruct (access_memory_outcome "none" self t a k rnd Hr)
        as [->|(v & self' & -> & [[Hp E]|[Hco E]])]; simpl.
      + done.
      + by rewrite (pe_messages _ _ _ _ _ _ _ _ E).
      + pose proof (co_protocol _ Hco) as Hp.
        rewrite (reachable_protocol "none" self Hr) in Hp. done. }
  apply Hgen, reachable_run. constructor.
Qed.

(** Registration *)
Lemma perform_registered p self c t :
  reachable p self → registered self t → registered (perform c self) t.
Proof.
  intros Hr Hreg. destruct c as [t0|t0 a k rnd]; simpl.
  - unfold registered, init_thread_cache. simpl.
    assert (is_Some (dict_get (dict_set (caches self) t0 ∅) t)) as Hs.
    { apply dict_get_keys, dict_keys_set. right. by apply dict_get_keys. }
    by case_bool_decide.
  - destruct (access_memory_outcome p self t0 a k rnd Hr)
      as [->|(v & self' & -> & [[Hp E]|[Hco E]])]; simpl.
    + done.
    + unfold registered in *. rewrite dict_get_keys in *.
      by rewrite (pe_keys _ _ _ _ _ _ _ _ E).
    + by apply (mesi_effect_registered _ _ _ _ _ _ _ _ t E).
Qed.

Lemma run_registered p calls self t :
  reachable p self → registered self t → registered (run calls self) t.
Proof.
  unfold run. revert self.
  induction calls as [|c r IH]; intros self Hr Hreg; simpl; [done|].
  apply IH; [by constructor|]. by apply (perform_registered p).
Qed.

Lemma run_app calls1 calls2 self :
  run (calls1 ++ calls2) self = run calls2 (run calls1 self).
Proof. unfold run. apply foldl_app. Qed.

(** X4: in both modes, when the calls on the engine are made one after the
    other (each one, a registration included, completes before the next
    begins), an access by a core for which [init_thread_cache] has completed
    returns a value, whatever calls were completed in between.
    [init_thread_cache] is not under [self.lock]; a registration running
    inside another core's access is not covered. *)
Theorem registered_core_is_served_in_sequence
    (p : string) (before after : list call) (thread_id : Z)
    (address access_type : string) (rnd : Z) :
  p = "none" ∨ p = "MESI" →
  InitThreadCache thread_id ∈ before →
  ∃ v self',
    access_memory thread_id address access_type rnd
      (run (before ++ after) (__init__ p))
    = (Ret v, self').
Proof.
  intros Hp Hin.
  assert (registered (run before (__init__ p)) thread_id) as Hreg.
  { apply list_elem_of_split in Hin as (l1 & l2 & ->).
    rewrite run_app. change (InitThreadCache thread_id :: l2)
      with ([InitThreadCache thread_id] ++ l2)%list. rewrite run_app.
    apply (run_registered p); [do 2 apply reachable_run; constructor|].
    unfold run. simpl. unfold registered, init_thread_cache. simpl.
    assert (is_Some (dict_get (dict_set (caches (run l1 (__init__ p)))
                                 thread_id ∅) thread_id)) as Hs.
    { rewrite dict_get_set_eq. eauto. }
    by case_bool_decide. }
  assert (registered (run (before ++ after) (__init__ p)) thread_id) as Hreg'.
  { rewrite run_app. apply (run_registered p); [|done].
    apply reachable_run. constructor. }
  destruct (run_access_returns p (before ++ after) thread_id address
              access_type rnd Hp Hreg') as (v & self' & Hrun & _).
  eauto.
Qed.

Lemma registered_core_is_served_in_sequence_witness :
  ("MESI" = "none" ∨ "MESI" = "MESI")
  ∧ InitThreadCache 3 ∈ [InitThreadCache 3; AccessMemory 3 "A" "write" 5]
  ∧ ∃ v self',
      access_memory 3 "B" "read" 1
        (run ([InitThreadCache 3; AccessMemory 3 "A" "write" 5]
              ++ [InitThreadCache 4; AccessMemory 9 "A" "read" 2])
           (__init__ "MESI"))
      = (Ret v, self').
Proof.
  assert (InitThreadCache 3
          ∈ [InitThreadCache 3; AccessMemory 3 "A" "write" 5]) as Hin
    by left.
  split; [by right|]. split; [exact Hin|].
  exact (registered_core_is_served_in_sequence "MESI"
           [InitThreadCache 3; AccessMemory 3 "A" "write" 5]
           [InitThreadCache 4; AccessMemory 9 "A" "read" 2]
           3 "B" "read" 1 (or_intror eq_refl) Hin).
Defined.

Lemma read_hit_returns
    (self : CacheSimulator) (thread_id : Z) (address : string) (rnd v : Z) :
  cache_entry self thread_id address = Some v →
  (protocol self ≠ "none" →
   core_state self thread_id address ≠ Invalid) →
  access_memory thread_id address "read" rnd self = (Ret v, counted self).
Proof.
  intros Hv Hst.
  enough (returns (access_memory thread_id address "read" rnd) self
            (λ v' self', v' = v ∧ self' = counted self))
    as (v' & self' & -> & -> & ->) by done.
  pose proof Hv as Hv'. unfold cache_entry in Hv'.
  destruct (dict_get (caches self) thread_id) as [c|] eqn:Hc; [|done].
  simpl in Hv'.
  unfold access_memory.
  apply returns_bind, returns_add_memory_accesses. fold (counted self).
  apply returns_bind, returns_get_protocol.
  change (protocol (counted self)) with (protocol self).
  change (dict_get (caches (counted self)) thread_id = Some c) in Hc.
  case_bool_decide as Hp.
  - unfold access_without_coherence. do 4 step.
    rewrite bool_decide_true by eauto. cbn [negb]. repeat step.
    eapply returns_cache_getitem; [exact Hv|]. done.
  - specialize (Hst Hp). unfold core_state, entry in Hst.
    destruct (coherence_states self !! thread_id) as [d|] eqn:Hd; [|done].
    simpl in Hst.
    destruct (d !! address) as [st|] eqn:Hs; [|done]. simpl in Hst.
    change (coherence_states (counted self) !! thread_id = Some d) in Hd.
    unfold access_with_mesi. do 6 step.
    rewrite Hs. simpl default.
    rewrite bool_decide_true by eauto.
    rewrite (bool_decide_false (st = Invalid)) by done.
    cbn [negb orb]. repeat step.
    eapply returns_cache_getitem; [exact Hv|]. split; [done|].
    rewrite (insert_id d) by done. rewrite insert_id by done.
    by destruct self.
Qed.

(** X5: a read hit (the address is cached and, with coherence, the state is
    not Invalid) returns the cached value and changes nothing but the access
    counter. *)
Theorem read_hit_changes_nothing
    (self : CacheSimulator) (thread_id : Z) (address : string) (rnd v : Z) :
  cache_entry self thread_id address = Some v →
  (protocol self ≠ "none" →
   core_state self thread_id address ≠ Invalid) →
  access_memory thread_id address "read" rnd self = (Ret v, counted self).
Proof. apply read_hit_returns. Qed.

Lemma owners_fresh_access n thread_id address rd rnd self v self' :
  coherent self → owners_fresh self →
  mesi_effect n thread_id address rd rnd self v self' →
  owners_fresh self'.
Proof.
  intros Hco Hfr E t a Hown. unfold owns in Hown.
  destruct (decide (a = address)) as [->|Ha].
  2: { rewrite (mesi_effect_elsewhere _ _ _ _ _ _ _ _ _ _ E) in Hown by done.
       rewrite (me_shared_ne _ _ _ _ _ _ _ _ E) by done.
       destruct (decide (t = thread_id)) as [->|Ht].
       - rewrite (me_cache_ne _ _ _ _ _ _ _ _ E) by done. by apply Hfr.
       - rewrite (me_cache_other _ _ _ _ _ _ _ _ E) by done. by apply Hfr. }
  pose proof (me_shared _ _ _ _ _ _ _ _ E) as Hsh.
  pose proof (me_value _ _ _ _ _ _ _ _ E) as Hv. cbv zeta in Hsh, Hv.
  destruct (decide (t = thread_id)) as [->|Ht].
  - exists v. split; [apply (me_cache_own _ _ _ _ _ _ _ _ E)|].
    rewrite Hsh, Hv.
    rewrite (mesi_effect_own _ _ _ _ _ _ _ _ E) in Hown.
    unfold own_after in Hown.
    destruct rd; [|done].
    destruct (is_miss _ _); [done|].
    destruct (Hfr thread_id address Hown) as (w & -> & ->). done.
  - rewrite (mesi_effect_other _ _ _ _ _ _ _ _ t Hco E) in Hown by done.
    rewrite (me_cache_other _ _ _ _ _ _ _ _ E) by done.
    unfold others_after in Hown.
    destruct rd.
    + destruct (is_miss _ _) eqn:Hm; simpl in Hown.
      * destruct (other_has_copy self thread_id address) eqn:Hohc.
        -- destruct (entry self t address); by destruct Hown.
        -- rewrite (coherent_no_copy self thread_id address t) in Hown
             by done.
           by destruct Hown.
      * rewrite Hsh. by apply Hfr.
    + destruct (is_miss _ _) eqn:Hm; simpl in Hown.
      * destruct (entry self t address); by destruct Hown.
      * case_bool_decide as Hs; simpl in Hown.
        -- destruct (entry self t address); by destruct Hown.
        -- assert (core_state self thread_id address = Invalid) as Hinv.
           { by apply (co_owner _ Hco t thread_id). }
           unfold is_miss in Hm. rewrite Hinv in Hm.
           by rewrite orb_true_r in Hm.
Qed.

Lemma owners_fresh_reachable self :
  reachable "MESI" self → owners_fresh self.
Proof.
  induction 1 as [|self c Hr IH].
  - intros t a [H|H]; unfold core_state, entry in H; simpl in H;
      by rewrite lookup_empty in H.
  - pose proof (reachable_coherent self Hr) as Hco.
    destruct c as [t0|t0 a0 k rnd]; simpl.
    + intros t a Hown. unfold owns, core_state, entry in Hown.
      unfold init_thread_cache in *. simpl in *.
      rewrite bool_decide_true in * by apply (co_protocol _ Hco).
      simpl in *. unfold cache_entry. simpl.
      rewrite lookup_insert in Hown.
      destruct (decide (t0 = t)) as [->|Hne]; [by destruct Hown|].
      rewrite dict_get_set_ne by done. by apply IH.
    + destruct (access_memory_outcome "MESI" self t0 a0 k rnd Hr)
        as [->|(v & self' & -> & [[Hp E]|[_ E]])]; simpl.
      * done.
      * by rewrite (co_protocol _ Hco) in Hp.
      * by apply (owners_fresh_access _ _ _ _ _ _ _ _ Hco IH E).
Qed.

(** X6: in MESI mode a core that holds a line Modified or Exclusive caches
    the very value the shared store holds for it. *)
Theorem mesi_owner_holds_shared_value
    (calls : list call) (t : Z) (a : string) :
  let self := run calls (__init__ "MESI") in
  owns self t a →
  ∃ v, cache_entry self t a = Some v ∧ shared_memory self !! a = Some v.
Proof.
  intros self Hown. apply owners_fresh_reachable; [|done].
  apply reachable_run. constructor.
Qed.

(** X7: in MESI mode, while a core holds a line Modified or Exclusive every
    other core is Invalid for it; no core is Shared beside an owner. *)
Theorem mesi_owner_excludes_sharers
    (calls : list call) (a : string) (t1 t2 : Z) :
  let self := run calls (__init__ "MESI") in
  t1 ≠ t2 →
  owns self t1 a →
  core_state self t2 a = Invalid.
Proof.
  intros self Hne Hown. by apply (co_owner _ (run_coherent calls) t1 t2).
Qed.

(** X8: in MESI mode a write by the core that holds the line Modified or
    Exclusive is a hit that leaves its state as it was (Exclusive is not
    promoted), charges no message and touches no other core's entry. *)
Theorem write_hit_on_owned_line_is_silent
    (calls : list call) (thread_id : Z) (address : string) (rnd : Z) :
  let self := run calls (__init__ "MESI") in
  owns self thread_id address →
  ∃ self',
    access_memory thread_id address "write" rnd self = (Ret rnd, self')
    ∧ core_state self' thread_id address = core_state self thread_id address
    ∧ cache_misses (metrics self') = cache_misses (metrics self)
    ∧ coherence_messages (metrics self')
      = coherence_messages (metrics self)
    ∧ ∀ t a, t ≠ thread_id → entry self' t a = entry self t a.
Proof.
  intros self Hown. pose proof (run_coherent calls) as Hco. fold self in Hco.
  assert (is_Some (cache_entry self thread_id address)) as Hcached.
  { apply (co_entries _ Hco). destruct Hown as [H|H];
      unfold core_state in H; destruct (entry self thread_id address);
      eauto; done. }
  assert (registered self thread_id) as Hreg.
  { destruct Hcached as [v Hv]. unfold cache_entry in Hv. unfold registered.
    destruct (dict_get (caches self) thread_id); [eauto|done]. }
  destruct (coherent_access_returns self thread_id address "write" rnd
              Hco Hreg) as (v & self' & Hrun & E).
  pose proof (me_value _ _ _ _ _ _ _ _ E) as Hv. simpl in Hv. subst v.
  assert (is_miss (is_cached self thread_id address)
            (core_state self thread_id address) = false) as Hhit.
  { unfold is_miss, is_cached. rewrite bool_decide_true by done.
    destruct Hown as [-> | ->]; done. }
  assert (bool_decide (core_state self thread_id address = Shared) = false)
    as Hns.
  { destruct Hown as [-> | ->]; done. }
  exists self'. split; [done|].
  pose proof (mesi_effect_own _ _ _ _ _ _ _ _ E) as Ho.
  pose proof (me_misses _ _ _ _ _ _ _ _ E) as Hm.
  pose proof (me_messages _ _ _ _ _ _ _ _ E) as Hg.
  pose proof (me_entry_other _ _ _ _ _ _ _ _ E) as Hx.
  cbv zeta in Hm, Hg, Hx. unfold own_after, messages, others_after in *.
  rewrite Hhit, Hns in *. simpl in *.
  repeat split; try done; try lia.
  intros t a Ht. destruct (decide (a = address)) as [->|Ha]; [by apply Hx|].
  by apply (me_entry_ne _ _ _ _ _ _ _ _ E).
Qed.

Lemma write_hit_on_owned_line_is_silent_witness :
  let self := run [InitThreadCache 0; InitThreadCache 1;
                   AccessMemory 0 "A" "read" 1] (__init__ "MESI") in
  owns self 0 "A"
  ∧ core_state self 0 "A" = Exclusive
  ∧ ∃ self',
      access_memory 0 "A" "write" 50 self = (Ret 50, self')
      ∧ core_state self' 0 "A" = core_state self 0 "A"
      ∧ cache_misses (metrics self') = cache_misses (metrics self)
      ∧ coherence_messages (metrics self')
        = coherence_messages (metrics self)
      ∧ ∀ t a, t ≠ 0 → entry self' t a = entry self t a.
Proof.
  assert (owns (run [InitThreadCache 0; InitThreadCache 1;
                     AccessMemory 0 "A" "read" 1] (__init__ "MESI")) 0 "A")
    as Hown by (by right).
  split; [exact Hown|]. split; [reflexivity|].
  exact (write_hit_on_owned_line_is_silent
           [InitThreadCache 0; InitThreadCache 1;
            AccessMemory 0 "A" "read" 1] 0 "A" 50 Hown).
Defined.

(** What a write leaves for the other cores, in a coherent engine. *)
Lemma coherent_write_effect self thread_id address rnd :
  coherent self → registered self thread_id →
  ∃ self',
    access_memory thread_id address "write" rnd self = (Ret rnd, self')
    ∧ coherent self'
    ∧ owns self' thread_id address
    ∧ cache_entry self' thread_id address = Some rnd
    ∧ shared_memory self' !! address = Some rnd
    ∧ (∀ t, t ≠ thread_id → core_state self' t address = Invalid)
    ∧ (∀ t a, t ≠ thread_id → cache_entry self' t a = cache_entry self t a)
    ∧ (∀ t, registered self t → registered self' t).
Proof.
  intros Hco Hreg.
  destruct (coherent_access_returns self thread_id address "write" rnd
              Hco Hreg) as (v & self' & Hrun & E).
  pose proof (me_value _ _ _ _ _ _ _ _ E) as Hv. simpl in Hv. subst v.
  pose proof (mesi_effect_coherent _ _ _ _ _ _ _ _ Hco E) as Hco'.
  assert (owns self' thread_id address) as Hown.
  { unfold owns. rewrite (mesi_effect_own _ _ _ _ _ _ _ _ E).
    unfold own_after. destruct (is_miss _ _) eqn:Hm; simpl; [by left|].
    case_bool_decide as Hs; [by left|].
    unfold is_miss in Hm. apply orb_false_iff in Hm as [_ Hi].
    apply bool_decide_eq_false in Hi.
    destruct (core_state self thread_id address); auto; done. }
  exists self'. do 3 (split; [done|]).
  split; [apply (me_cache_own _ _ _ _ _ _ _ _ E)|].
  split; [apply (me_shared _ _ _ _ _ _ _ _ E)|].
  split; [|split].
  - intros t Ht. by apply (co_owner _ Hco' thread_id t).
  - intros t a Ht. by apply (me_cache_other _ _ _ _ _ _ _ _ E).
  - intros t. apply (mesi_effect_registered _ _ _ _ _ _ _ _ t E).
Qed.

(** X9: in MESI mode, a read by [B] right after a write by another core [A]
    to the same address is a miss that returns the value [A] wrote. *)
Theorem mesi_read_after_write_is_fresh
    (calls : list call) (A B : Z) (X : string) (rndA rndB : Z) :
  let self := run calls (__init__ "MESI") in
  A ≠ B → registered self A → registered self B →
  ∃ s1 s2,
    access_memory A X "write" rndA self = (Ret rndA, s1)
    ∧ access_memory B X "read" rndB s1 = (Ret rndA, s2)
    ∧ cache_misses (metrics s2) = cache_misses (metrics s1) + 1.
Proof.
  intros self Hne HA HB.
  destruct (coherent_write_effect self A X rndA (run_coherent calls) HA)
    as (s1 & Hrun1 & Hco1 & _ & _ & Hsh1 & Hinv1 & _ & Hreg1).
  destruct (coherent_access_returns s1 B X "read" rndB Hco1 (Hreg1 B HB))
    as (v & s2 & Hrun2 & E).
  assert (is_miss (is_cached s1 B X) (core_state s1 B X) = true) as Hm.
  { unfold is_miss. rewrite Hinv1 by done. by rewrite orb_true_r. }
  pose proof (me_value _ _ _ _ _ _ _ _ E) as Hv.
  pose proof (me_misses _ _ _ _ _ _ _ _ E) as Hc.
  cbv zeta in Hv, Hc. rewrite Hm in Hv, Hc. rewrite Hsh1 in Hv.
  simpl in Hv. subst v. exists s1, s2. done.
Qed.

Lemma mesi_read_after_write_is_fresh_witness :
  let self := run [InitThreadCache 0; InitThreadCache 1;
                   AccessMemory 1 "X" "write" 11] (__init__ "MESI") in
  (0 ≠ 1 ∧ registered self 0 ∧ registered self 1)
  ∧ ∃ s1 s2,
      access_memory 0 "X" "write" 22 self = (Ret 22, s1)
      ∧ access_memory 1 "X" "read" 33 s1 = (Ret 22, s2)
      ∧ cache_misses (metrics s2) = cache_misses (metrics s1) + 1.
Proof.
  set (calls := [InitThreadCache 0; InitThreadCache 1;
                 AccessMemory 1 "X" "write" 11]).
  assert (0 ≠ 1) as Hne by lia.
  assert (registered (run calls (__init__ "MESI")) 0) as H0 by (by eexists).
  assert (registered (run calls (__init__ "MESI")) 1) as H1 by (by eexists).
  split; [done|].
  exact (mesi_read_after_write_is_fresh calls 0 1 "X" 22 33 Hne H0 H1).
Defined.

(** X10: MESI mode does not rule out stale reads. After [A] writes [X], [B]
    writes [X] and a third core [C] reads [X], the loop of lines 58-60 has
    set [A] back to Shared, and [A]'s next read is a hit on the value [A]
    wrote while the shared store holds [B]'s. *)
Theorem mesi_revalidated_core_reads_stale
    (calls : list call) (A B C : Z) (X : string) (rA rB rC rA' : Z) :
  let self := run calls (__init__ "MESI") in
  A ≠ B → A ≠ C → B ≠ C →
  registered self A → registered self B → registered self C →
  ∃ s1 s2 s3,
    access_memory A X "write" rA self = (Ret rA, s1)
    ∧ access_memory B X "write" rB s1 = (Ret rB, s2)
    ∧ access_memory C X "read" rC s2 = (Ret rB, s3)
    ∧ core_state s3 A X = Shared
    ∧ access_memory A X "read" rA' s3 = (Ret rA, counted s3)
    ∧ shared_memory (counted s3) !! X = Some rB.
Proof.
  intros self HAB HAC HBC HA HB HC.
  destruct (coherent_write_effect self A X rA (run_coherent calls) HA)
    as (s1 & Hrun1 & Hco1 & _ & HcA1 & _ & _ & _ & Hreg1).
  destruct (coherent_write_effect s1 B X rB Hco1 (Hreg1 B HB))
    as (s2 & Hrun2 & Hco2 & _ & HcB2 & Hsh2 & Hinv2 & Hoth2 & Hreg2).
  assert (cache_entry s2 A X = Some rA) as HcA2.
  { by rewrite Hoth2. }
  destruct (coherent_access_returns s2 C X "read" rC Hco2)
    as (v & s3 & Hrun3 & E); [auto|].
  assert (is_miss (is_cached s2 C X) (core_state s2 C X) = true) as Hm.
  { unfold is_miss. rewrite Hinv2 by done. by rewrite orb_true_r. }
  assert (other_has_copy s2 C X = true) as Hohc.
  { apply (other_has_copy_true s2 C X B); [|done]. rewrite HcB2. eauto. }
  pose proof (me_value _ _ _ _ _ _ _ _ E) as Hv.
  pose proof (me_shared _ _ _ _ _ _ _ _ E) as Hsh3.
  pose proof (mesi_effect_other _ _ _ _ _ _ _ _ A Hco2 E) as HstA.
  cbv zeta in Hv, Hsh3. rewrite Hm in Hv, Hsh3, HstA.
  rewrite Hohc in HstA. rewrite Hsh2 in Hv, Hsh3.
  simpl in Hv, Hsh3, HstA. subst v. specialize (HstA HAC).
  assert (is_Some (entry s2 A X)) as [st Hst].
  { apply (co_entries _ Hco2). rewrite HcA2. eauto. }
  rewrite Hst in HstA.
  assert (cache_entry s3 A X = Some rA) as HcA3.
  { by rewrite (me_cache_other _ _ _ _ _ _ _ _ E). }
  exists s1, s2, s3. repeat split; try done.
  apply read_hit_returns; [done|]. intros _. by rewrite HstA.
Qed.

Lemma mesi_revalidated_core_reads_stale_witness :
  let self := run [InitThreadCache 0; InitThreadCache 1; InitThreadCache 2]
                (__init__ "MESI") in
  (0 ≠ 1 ∧ 0 ≠ 2 ∧ 1 ≠ 2
   ∧ registered self 0 ∧ registered self 1 ∧ registered self 2)
  ∧ ∃ s1 s2 s3,
      access_memory 0 "X" "write" 42 self = (Ret 42, s1)
      ∧ access_memory 1 "X" "write" 7 s1 = (Ret 7, s2)
      ∧ access_memory 2 "X" "read" 0 s2 = (Ret 7, s3)
      ∧ core_state s3 0 "X" = Shared
      ∧ access_memory 0 "X" "read" 0 s3 = (Ret 42, counted s3)
      ∧ shared_memory (counted s3) !! "X" = Some 7.
Proof.
  set (calls := [InitThreadCache 0; InitThreadCache 1; InitThreadCache 2]).
  assert (0 ≠ 1) as H01 by lia.
  assert (0 ≠ 2) as H02 by lia.
  assert (1 ≠ 2) as H12 by lia.
  assert (registered (run calls (__init__ "MESI")) 0) as H0 by (by eexists).
  assert (registered (run calls (__init__ "MESI")) 1) as H1 by (by eexists).
  assert (registered (run calls (__init__ "MESI")) 2) as H2 by (by eexists).
  split; [done|].
  exact (mesi_revalidated_core_reads_stale calls 0 1 2 "X" 42 7 0 0
           H01 H02 H12 H0 H1 H2).
Defined.

Lemma read_hit_changes_nothing_witness :
  let self := run [InitThreadCache 0; AccessMemory 0 "A" "write" 9]
                (__init__ "MESI") in
  (cache_entry self 0 "A" = Some 9
   ∧ (protocol self ≠ "none" → core_state self 0 "A" ≠ Invalid))
  ∧ access_memory 0 "A" "read" 1 self = (Ret 9, counted self).
Proof.
  set (self := run [InitThreadCache 0; AccessMemory 0 "A" "write" 9]
                 (__init__ "MESI")).
  assert (cache_entry self 0 "A" = Some 9) as Hv by reflexivity.
  assert (protocol self ≠ "none" → core_state self 0 "A" ≠ Invalid) as Hst.
  { intros _. by vm_compute. }
  split; [done|].
  exact (read_hit_changes_nothing self 0 "A" 1 9 Hv Hst).
Defined.

Lemma mesi_owner_holds_shared_value_witness :
  let self := run [InitThreadCache 0; AccessMemory 0 "A" "write" 9]
                (__init__ "MESI") in
  owns self 0 "A"
  ∧ ∃ v, cache_entry self 0 "A" = Some v ∧ shared_memory self !! "A" = Some v.
Proof.
  assert (owns (run [InitThreadCache 0; AccessMemory 0 "A" "write" 9]
                  (__init__ "MESI")) 0 "A") as Hown by (by left).
  split; [exact Hown|].
  exact (mesi_owner_holds_shared_value
           [InitThreadCache 0; AccessMemory 0 "A" "write" 9] 0 "A" Hown).
Defined.

Lemma mesi_owner_excludes_sharers_witness :
  let self := run [InitThreadCache 0; InitThreadCache 1;
                   AccessMemory 1 "A" "read" 0;
                   AccessMemory 0 "A" "write" 9] (__init__ "MESI") in
  (0 ≠ 1 ∧ owns self 0 "A") ∧ core_state self 1 "A" = Invalid.
Proof.
  set (calls := [InitThreadCache 0; InitThreadCache 1;
                 AccessMemory 1 "A" "read" 0;
                 AccessMemory 0 "A" "write" 9]).
  assert (0 ≠ 1) as Hne by lia.
  assert (owns (run calls (__init__ "MESI")) 0 "A") as Hown by (by left).
  split; [done|].
  exact (mesi_owner_excludes_sharers calls "A" 0 1 Hne Hown).
Defined.

(** X11: in both modes, the read of an address that is neither in the
    requester's cache nor in the shared store returns the baseline 0 and
    leaves 0 in both. *)
Theorem first_read_returns_baseline
    (p : string) (calls : list call) (thread_id : Z) (address : string)
    (rnd : Z) :
  let self := run calls (__init__ p) in
  p = "none" ∨ p = "MESI" →
  registered self thread_id →
  cache_entry self thread_id address = None →
  shared_memory self !! address = None →
  ∃ self',
    access_memory thread_id address "read" rnd self = (Ret 0, self')
    ∧ cache_entry self' thread_id address = Some 0
    ∧ shared_memory self' !! address = Some 0.
Proof.
  intros self Hp Hreg Hc Hs.
  destruct (run_access_returns p calls thread_id address "read" rnd Hp Hreg)
    as (v & self' & Hrun & [E|E]); exists self'.
  - pose proof (pe_value _ _ _ _ _ _ _ _ E) as Hv.
    pose proof (pe_shared _ _ _ _ _ _ _ _ E) as Hsh.
    pose proof (pe_cache_own _ _ _ _ _ _ _ _ E) as Hc'.
    unfold is_cached in Hv, Hsh. fold self in Hv, Hsh.
    rewrite Hc, Hs in Hv, Hsh. simpl in Hv, Hsh. by subst v.
  - pose proof (me_value _ _ _ _ _ _ _ _ E) as Hv.
    pose proof (me_shared _ _ _ _ _ _ _ _ E) as Hsh.
    pose proof (me_cache_own _ _ _ _ _ _ _ _ E) as Hc'.
    cbv zeta in Hv, Hsh. unfold is_miss, is_cached in Hv, Hsh.
    fold self in Hv, Hsh. rewrite Hc, Hs in Hv, Hsh. simpl in Hv, Hsh.
    by subst v.
Qed.

Lemma first_read_returns_baseline_witness :
  let self := run [InitThreadCache 0; AccessMemory 0 "A" "write" 9]
                (__init__ "none") in
  (("none" = "none" ∨ "none" = "MESI")
   ∧ registered self 0
   ∧ cache_entry self 0 "B" = None
   ∧ shared_memory self !! "B" = None)
  ∧ ∃ self',
      access_memory 0 "B" "read" 4 self = (Ret 0, self')
      ∧ cache_entry self' 0 "B" = Some 0
      ∧ shared_memory self' !! "B" = Some 0.
Proof.
  set (calls := [InitThreadCache 0; AccessMemory 0 "A" "write" 9]).
  assert (registered (run calls (__init__ "none")) 0) as Hreg
    by (by eexists).
  split; [split; [by left|]; split; [exact Hreg|]; split; reflexivity|].
  exact (first_read_returns_baseline "none" calls 0 "B" 4
           (or_introl eq_refl) Hreg eq_refl eq_refl).
Defined.

(** X12: in both modes, registering a core again empties its cache and
    leaves the shared store and the counters alone; its next access to any
    address is a miss and, for a read, returns what the shared store holds
    (0 when it holds nothing). *)
Theorem reregistered_core_starts_cold
    (p : string) (calls : list call) (thread_id : Z)
    (address access_type : string) (rnd : Z) :
  p = "none" ∨ p = "MESI" →
  let self := run calls (__init__ p) in
  let self1 := (init_thread_cache thread_id self).2 in
  shared_memory self1 = shared_memory self
  ∧ metrics self1 = metrics self
  ∧ (∀ a, cache_entry self1 thread_id a = None)
  ∧ ∃ v self',
      access_memory thread_id address access_type rnd self1 = (Ret v, self')
      ∧ cache_misses (metrics self') = cache_misses (metrics self) + 1
      ∧ (access_type = "read" →
         v = default 0 (shared_memory self !! address)).
Proof.
  intros Hp self self1.
  assert (self1 = run (calls ++ [InitThreadCache thread_id]) (__init__ p))
    as Hself1.
  { by rewrite run_app. }
  assert (Hcold : ∀ a, cache_entry self1 thread_id a = None).
  { intros a. unfold self1, init_thread_cache, cache_entry. simpl.
    case_bool_decide; simpl; by rewrite dict_get_set_eq. }
  assert (Hsh : shared_memory self1 = shared_memory self).
  { unfold self1, init_thread_cache. simpl. by case_bool_decide. }
  assert (Hme : metrics self1 = metrics self).
  { unfold self1, init_thread_cache. simpl. by case_bool_decide. }
  do 3 (split; [done|]).
  assert (registered self1 thread_id) as Hreg.
  { unfold self1, init_thread_cache, registered. simpl.
    case_bool_decide; simpl; rewrite dict_get_set_eq; eauto. }
  rewrite Hself1 in Hreg.
  destruct (run_access_returns p (calls ++ [InitThreadCache thread_id])
              thread_id address access_type rnd Hp Hreg)
    as (v & self' & Hrun & HE).
  rewrite <- Hself1 in Hrun, HE.
  exists v, self'. split; [done|]. rewrite <- Hme, <- Hsh.
  destruct HE as [E|E].
  - pose proof (pe_value _ _ _ _ _ _ _ _ E) as Hv.
    rewrite (pe_misses _ _ _ _ _ _ _ _ E).
    unfold is_cached in *. rewrite Hcold in *. simpl in *.
    split; [done|]. intros ->. by rewrite bool_decide_true in Hv.
  - pose proof (me_value _ _ _ _ _ _ _ _ E) as Hv.
    rewrite (me_misses _ _ _ _ _ _ _ _ E). cbv zeta in *.
    unfold is_miss, is_cached in *. rewrite Hcold in *. simpl in *.
    split; [done|]. intros ->. by rewrite bool_decide_true in Hv.
Qed.

Lemma reregistered_core_starts_cold_witness :
  ("MESI" = "none" ∨ "MESI" = "MESI")
  ∧ let self := run [InitThreadCache 0; AccessMemory 0 "A" "write" 9]
                  (__init__ "MESI") in
    let self1 := (init_thread_cache 0 self).2 in
    shared_memory self1 = shared_memory self
    ∧ metrics self1 = metrics self
    ∧ (∀ a, cache_entry self1 0 a = None)
    ∧ ∃ v self',
        access_memory 0 "A" "read" 3 self1 = (Ret v, self')
        ∧ cache_misses (metrics self') = cache_misses (metrics self) + 1
        ∧ ("read" = "read" → v = default 0 (shared_memory self !! "A")).
Proof.
  split; [by right|].
  exact (reregistered_core_starts_cold "MESI"
           [InitThreadCache 0; AccessMemory 0 "A" "write" 9] 0 "A" "read" 3
           (or_intror eq_refl)).
Defined.


Lemma address_of_inj c1 c2 : address_of c1 = address_of c2 → c1 = c2.
Proof. by destruct c1, c2. Qed.

Lemma mesi_effect_own_valid n thread_id address rd rnd self v self' :
  mesi_effect n thread_id address rd rnd self v self' →
  core_state self' thread_id address ≠ Invalid.
Proof.
  intros E. rewrite (mesi_effect_own _ _ _ _ _ _ _ _ E).
  unfold own_after, is_miss.
  destruct rd, (is_cached self thread_id address),
    (other_has_copy self thread_id address);
    simpl; repeat case_bool_decide; congruence.
Qed.

Lemma is_cached_Some self t a v :
  cache_entry self t a = Some v → is_cached self t a = true.
Proof. intros H. unfold is_cached. rewrite H. by apply bool_decide_eq_true. Qed.

Lemma warm_access p self thread_id seen c k rnd :
  p = "none" ∨ p = "MESI" →
  warm p self thread_id seen →
  ∃ v self',
    access_memory thread_id (address_of c) k rnd self = (Ret v, self')
    ∧ warm p self' thread_id (c :: seen)
    ∧ memory_accesses (metrics self') = memory_accesses (metrics self) + 1
    ∧ cache_misses (metrics self')
      = cache_misses (metrics self)
        + (if bool_decide (c ∈ seen) then 0 else 1).
Proof.
  intros Hp [Hr Hreg Hcached Hvalid].
  assert (∀ v self',
    access_memory thread_id (address_of c) k rnd self = (Ret v, self') →
    reachable p self') as Hr'.
  { intros v self' Hrun.
    change self' with (Ret v, self').2. rewrite <- Hrun.
    apply (reachable_perform p self (AccessMemory thread_id (address_of c)
                                       k rnd) Hr). }
  destruct (access_memory_outcome p self thread_id (address_of c) k rnd Hr)
    as [Hraise|(v & self' & Hrun & [[Hn E]|[Hco E]])].
  - exfalso. destruct Hreg as [c0 Hc0].
    destruct Hp as [-> | ->].
    + destruct (plain_access_returns self thread_id (address_of c) k rnd)
        as (v & s & Hrun & _); [by apply reachable_protocol|by eexists|].
      congruence.
    + destruct (coherent_access_returns self thread_id (address_of c) k rnd)
        as (v & s & Hrun & _); [by apply reachable_coherent|by eexists|].
      congruence.
  - exists v, self'. split; [done|]. split; [|split].
    + split.
      * by apply (Hr' v).
      * unfold registered in *. rewrite dict_get_keys in *.
        by rewrite (pe_keys _ _ _ _ _ _ _ _ E).
      * intros c'. destruct (decide (c' = c)) as [->|Hne].
        -- rewrite (is_cached_Some _ _ _ v)
             by apply (pe_cache_own _ _ _ _ _ _ _ _ E).
           symmetry. apply bool_decide_eq_true. left.
        -- unfold is_cached.
           rewrite (pe_cache_ne _ _ _ _ _ _ _ _ E)
             by (intros ?%address_of_inj; done).
           fold (is_cached self thread_id (address_of c')).
           rewrite Hcached. apply bool_decide_ext.
           rewrite elem_of_cons. split; [auto|]. by intros [?|?].
      * intros c' _ Hnn. by rewrite (pe_protocol _ _ _ _ _ _ _ _ E) in Hnn.
    + apply (pe_accesses _ _ _ _ _ _ _ _ E).
    + rewrite (pe_misses _ _ _ _ _ _ _ _ E), Hcached.
      by destruct (bool_decide (c ∈ seen)).
  - exists v, self'. split; [done|].
    assert (protocol self ≠ "none") as Hnn.
    { by rewrite (co_protocol _ Hco). }
    split; [|split].
    + split.
      * by apply (Hr' v).
      * by apply (mesi_effect_registered _ _ _ _ _ _ _ _ thread_id E).
      * intros c'. destruct (decide (c' = c)) as [->|Hne].
        -- rewrite (is_cached_Some _ _ _ v)
             by apply (me_cache_own _ _ _ _ _ _ _ _ E).
           symmetry. apply bool_decide_eq_true. left.
        -- unfold is_cached.
           rewrite (me_cache_ne _ _ _ _ _ _ _ _ E)
             by (intros ?%address_of_inj; done).
           fold (is_cached self thread_id (address_of c')).
           rewrite Hcached. apply bool_decide_ext.
           rewrite elem_of_cons. split; [auto|]. by intros [?|?].
      * intros c' Hin _. destruct (decide (c' = c)) as [->|Hne].
        -- apply (mesi_effect_own_valid _ _ _ _ _ _ _ _ E).
        -- rewrite (mesi_effect_elsewhere _ _ _ _ _ _ _ _ _ _ E)
             by (intros ?%address_of_inj; done).
           apply Hvalid; [|done].
           apply elem_of_cons in Hin as [?|?]; [congruence|done].
    + apply (me_accesses _ _ _ _ _ _ _ _ E).
    + rewrite (me_misses _ _ _ _ _ _ _ _ E). cbv zeta.
      unfold is_miss. rewrite Hcached.
      destruct (bool_decide (c ∈ seen)) eqn:Hin; simpl; [|done].
      apply bool_decide_eq_true in Hin.
      by rewrite bool_decide_false by (by apply Hvalid).
Qed.

Lemma warm_loop p thread_id draws :
  p = "none" ∨ p = "MESI" →
  ∀ self seen,
    warm p self thread_id seen →
    ∃ self',
      for_each draws (λ d,
        _ ← access_memory thread_id (address_of (drawn_address d))
              (access_type_of (drawn_kind d)) (drawn_value d);
        ret tt) self = (Ret tt, self')
      ∧ registered self' thread_id
      ∧ memory_accesses (metrics self')
        = memory_accesses (metrics self) + Z.of_nat (length draws)
      ∧ cache_misses (metrics self')
        = cache_misses (metrics self) + new_addresses seen draws.
Proof.
  intros Hp. induction draws as [|d r IH]; intros self seen Hw.
  - exists self. simpl. repeat split; try lia.
    apply (wm_registered _ _ _ _ Hw).
  - destruct (warm_access p self thread_id seen (drawn_address d)
                (access_type_of (drawn_kind d)) (drawn_value d) Hp Hw)
      as (v & s1 & Hrun & Hw1 & Ha & Hm).
    destruct (IH s1 (drawn_address d :: seen) Hw1)
      as (self' & Hloop & Hreg & Ha' & Hm').
    exists self'. split; [|split; [done|split]].
    + cbn [for_each]. unfold bind at 1. unfold bind at 1.
      rewrite Hrun. unfold ret at 1. exact Hloop.
    + rewrite Ha', Ha. rewrite length_cons. lia.
    + rewrite Hm', Hm. cbn [new_addresses]. lia.
Qed.

Lemma bool_decide_elem_of_cons (x c : address_choice) seen :
  bool_decide (x ∈ c :: seen) = bool_decide (x = c) || bool_decide (x ∈ seen).
Proof.
  rewrite <- bool_decide_or. apply bool_decide_ext, elem_of_cons.
Qed.

Lemma unseen_cons c seen :
  unseen (c :: seen) + (if bool_decide (c ∈ seen) then 0 else 1)
  = unseen seen.
Proof.
  unfold unseen. rewrite !bool_decide_elem_of_cons.
  destruct c; cbn;
    destruct (bool_decide (choice_A ∈ seen)), (bool_decide (choice_B ∈ seen)),
      (bool_decide (choice_C ∈ seen)), (bool_decide (choice_D ∈ seen));
    reflexivity.
Qed.

Lemma new_addresses_bound seen draws :
  (0 ≤ new_addresses seen draws ≤ unseen seen)%Z.
Proof.
  revert seen. induction draws as [|d r IH]; intros seen; simpl.
  - unfold unseen. repeat case_bool_decide; lia.
  - specialize (IH (drawn_address d :: seen)).
    pose proof (unseen_cons (drawn_address d) seen).
    destruct (bool_decide (drawn_address d ∈ seen)); lia.
Qed.

Lemma init_thread_cache_returns thread_id self :
  init_thread_cache thread_id self
  = (Ret tt, (init_thread_cache thread_id self).2).
Proof. unfold init_thread_cache. simpl. by case_bool_decide. Qed.

Lemma init_thread_cache_caches thread_id self :
  caches (init_thread_cache thread_id self).2
  = dict_set (caches self) thread_id ∅.
Proof. unfold init_thread_cache. cbn [snd]. by case_bool_decide. Qed.

Lemma warm_init p self thread_id :
  reachable p self →
  warm p (init_thread_cache thread_id self).2 thread_id [].
Proof.
  intros Hr. split.
  - apply (reachable_perform p self (InitThreadCache thread_id) Hr).
  - unfold registered. rewrite init_thread_cache_caches, dict_get_set_eq.
    eauto.
  - intros c. unfold is_cached, cache_entry.
    by rewrite init_thread_cache_caches, dict_get_set_eq.
  - by intros c ?%elem_of_nil.
Qed.

(** X13: in both modes, a worker run on its own (no call of another thread
    in between) returns, leaves its core registered, counts one access per
    iteration and one miss per distinct address it draws, hence at most
    four misses. *)
Theorem worker_run_alone
    (p : string) (calls : list call) (thread_id : Z) (draws : list draw) :
  p = "none" ∨ p = "MESI" →
  let self := run calls (__init__ p) in
  ∃ self',
    worker thread_id draws self = (Ret tt, self')
    ∧ registered self' thread_id
    ∧ memory_accesses (metrics self')
      = memory_accesses (metrics self) + Z.of_nat (length draws)
    ∧ cache_misses (metrics self')
      = cache_misses (metrics self) + new_addresses [] draws
    ∧ (cache_misses (metrics self) ≤ cache_misses (metrics self')
       ≤ cache_misses (metrics self) + 4)%Z.
Proof.
  intros Hp self.
  assert (reachable p self) as Hr by (apply reachable_run; constructor).
  destruct (warm_loop p thread_id draws Hp _ [] (warm_init p self thread_id Hr))
    as (self' & Hloop & Hreg & Ha & Hm).
  assert (metrics (init_thread_cache thread_id self).2 = metrics self) as Hme.
  { unfold init_thread_cache. simpl. by case_bool_decide. }
  rewrite Hme in Ha, Hm.
  exists self'. split; [|split; [done|split; [done|split; [done|]]]].
  - unfold worker, bind at 1. rewrite init_thread_cache_returns. exact Hloop.
  - pose proof (new_addresses_bound [] draws) as Hb.
    change (unseen []) with 4 in Hb. lia.
Qed.

Lemma worker_run_alone_witness :
  ("MESI" = "none" ∨ "MESI" = "MESI")
  ∧ let self := run [InitThreadCache 0; AccessMemory 0 "A" "write" 9]
                  (__init__ "MESI") in
    let draws := [mkDraw choice_A choice_read 5;
                  mkDraw choice_B choice_write 6;
                  mkDraw choice_A choice_write 7] in
    ∃ self',
      worker 1 draws self = (Ret tt, self')
      ∧ registered self' 1
      ∧ memory_accesses (metrics self')
        = memory_accesses (metrics self) + Z.of_nat (length draws)
      ∧ cache_misses (metrics self')
        = cache_misses (metrics self) + new_addresses [] draws
      ∧ (cache_misses (metrics self) ≤ cache_misses (metrics self')
         ≤ cache_misses (metrics self) + 4)%Z.
Proof.
  split; [by right|].
  exact (worker_run_alone "MESI"
           [InitThreadCache 0; AccessMemory 0 "A" "write" 9] 1
           [mkDraw choice_A choice_read 5; mkDraw choice_B choice_write 6;
            mkDraw choice_A choice_write 7] (or_intror eq_refl)).
Defined.

(** X14: on an engine built with a protocol other than ['none'] and
    ['MESI'], a worker with no iteration only registers its core, and a
    worker with at least one raises [KeyError] in its first access, which
    has been counted. *)
Theorem worker_unknown_protocol_raises
    (p : string) (calls : list call) (thread_id : Z) (d : draw)
    (draws : list draw) :
  p ≠ "none" → p ≠ "MESI" →
  let self := run calls (__init__ p) in
  worker thread_id [] self = (Ret tt, (init_thread_cache thread_id self).2)
  ∧ worker thread_id (d :: draws) self
    = (Raise KeyError, counted (init_thread_cache thread_id self).2).
Proof.
  intros Hn Hm self. split.
  - unfold worker, bind. by rewrite init_thread_cache_returns.
  - assert (reachable p (init_thread_cache thread_id self).2) as Hr.
    { apply (reachable_perform p self (InitThreadCache thread_id)).
      apply reachable_run. constructor. }
    unfold worker, bind at 1. rewrite init_thread_cache_returns.
    cbn [for_each]. unfold bind at 1. unfold bind at 1.
    rewrite access_memory_no_table; [done| |].
    + by rewrite (reachable_protocol p).
    + rewrite (reachable_no_tables p) by done. apply lookup_empty.
Qed.

Lemma worker_unknown_protocol_raises_witness :
  ("mesi" ≠ "none" ∧ "mesi" ≠ "MESI")
  ∧ let self := run [] (__init__ "mesi") in
    worker 0 [] self = (Ret tt, (init_thread_cache 0 self).2)
    ∧ worker 0 [mkDraw choice_A choice_read 5] self
      = (Raise KeyError, counted (init_thread_cache 0 self).2).
Proof.
  assert ("mesi" ≠ "none") as Hn by done.
  assert ("mesi" ≠ "MESI") as Hm by done.
  split; [done|].
  exact (worker_unknown_protocol_raises "mesi" [] 0
           (mkDraw choice_A choice_read 5) [] Hn Hm).
Defined.
